(** * Polyglot: pluralization and interpolation of translated phrases

    A shallow embedding of [index.js] (the Polyglot class, its plural rule
    table, its token matcher and [transformPhrase]) together with the
    properties its specification states about it.

    Layout: the JavaScript primitives the source relies on ([Js]), the
    program itself ([Index]), the specification-side definitions the
    program is compared with ([Spec]), then lemmas and theorems. *)

From Stdlib Require Import ZArith String Ascii List Lia.
From stdpp Require Import base strings gmap list pretty.

Open Scope string_scope.
Open Scope Z_scope.

(** ** The JavaScript primitives used by the source *)

Module Js.

(** Strings are sequences of code units; a [string] here is a JavaScript
    string all of whose code units are below 256, each [ascii] being one
    code unit.  Numbers are the integers (the counts the library is written
    for): [%] is the truncating remainder [Z.rem]. *)

Inductive value : Type :=
| VUndefined
| VNull
| VBoolean (b : bool)
| VNumber (n : Z)
| VString (s : string)
| VObject                  (* a plain object such as [{}] *)
| VInherited (k : string). (* the member [k] of [Object.prototype] *)

(** A plain object, by its own properties. *)
Abbreviation object := (gmap string value).

Inductive error : Type :=
| TypeError (message : string)
| RangeError (message : string)
| SyntaxError (message : string).

(** The outcome of a call: a returned value or a thrown error. *)
Inductive result (A : Type) : Type :=
| Ok (a : A)
| Throw (e : error).
Arguments Ok {A} a.
Arguments Throw {A} e.

Definition bind {A B : Type} (r : result A) (k : A -> result B) : result B :=
  match r with
  | Ok a => k a
  | Throw e => Throw e
  end.

Definition typeof (v : value) : string :=
  match v with
  | VUndefined => "undefined"
  | VNull => "object"
  | VBoolean _ => "boolean"
  | VNumber _ => "number"
  | VString _ => "string"
  | VObject => "object"
  | VInherited k => if String.eqb k "__proto__" then "object" else "function"
  end.

(** [Boolean(v)], the test behind [||], [&&] and [?:]. *)
Definition truthy (v : value) : bool :=
  match v with
  | VUndefined | VNull => false
  | VBoolean b => b
  | VNumber n => negb (n =? 0)
  | VString s => negb (String.eqb s "")
  | VObject | VInherited _ => true
  end.

(** [a || b] *)
Definition or (a b : value) : value := if truthy a then a else b.

(** The names every plain object inherits from [Object.prototype]. *)
Definition objectPrototype : list string :=
  [ "constructor"; "__defineGetter__"; "__defineSetter__"; "hasOwnProperty";
    "__lookupGetter__"; "__lookupSetter__"; "isPrototypeOf";
    "propertyIsEnumerable"; "toString"; "valueOf"; "__proto__";
    "toLocaleString" ].

(** [o[k]]: an own property, else what the prototype chain gives. *)
Definition get (o : object) (k : string) : value :=
  match o !! k with
  | Some v => v
  | None => if existsb (String.eqb k) objectPrototype then VInherited k else VUndefined
  end.

(** [o[k] = v] for a primitive [v]: the [__proto__] setter ignores it. *)
Definition set (o : object) (k : string) (v : value) : object :=
  if String.eqb k "__proto__" then o else <[ k := v ]> o.

(** String conversion of a value used as text or as a property key.  A
    number prints in decimal (what JavaScript does below 10^21); a built-in
    function prints as V8 prints it. *)
Definition toString (v : value) : string :=
  match v with
  | VUndefined => "undefined"
  | VNull => "null"
  | VBoolean b => if b then "true" else "false"
  | VNumber n => pretty n
  | VString s => s
  | VObject => "[object Object]"
  | VInherited k =>
      if String.eqb k "__proto__" then "[object Object]"
      else "function " +:+ (if String.eqb k "constructor" then "Object" else k)
           +:+ "() { [native code] }"
  end.

(** [a[i]] on an array of strings. *)
Definition index (a : list string) (i : Z) : value :=
  if i <? 0 then VUndefined
  else match a !! Z.to_nat i with
       | Some s => VString s
       | None => VUndefined
       end.

(** *** [String.prototype.split] with a non-empty string separator *)

(** [skip] counts the code units of a matched separator still to pass;
    [piece] is the piece being collected. *)
Fixpoint split_from (separator : string) (skip : nat) (piece s : string)
  : list string :=
  match s with
  | "" => [piece]
  | String c s' =>
      match skip with
      | S k => split_from separator k piece s'
      | O =>
          if String.prefix separator s
          then piece :: split_from separator (String.length separator - 1) "" s'
          else split_from separator 0 (piece +:+ String c "") s'
      end
  end.

Definition split (separator s : string) : list string :=
  split_from separator 0 "" s.

(** [Array.prototype.join] *)
Fixpoint join (separator : string) (a : list string) : string :=
  match a with
  | [] => ""
  | [x] => x
  | x :: rest => x +:+ separator +:+ join separator rest
  end.

(** *** [String.prototype.trim] *)

Definition code (c : ascii) : N := N_of_ascii c.

(** Line terminators: LF and CR. *)
Definition isLineTerminator (c : ascii) : bool :=
  ((code c =? 10) || (code c =? 13))%N.

(** White space for [trim]: TAB, VT, FF, SP, NBSP and the line
    terminators. *)
Definition isWhiteSpace (c : ascii) : bool :=
  ((code c =? 9) || (code c =? 11) || (code c =? 12) || (code c =? 32)
   || (code c =? 160))%N || isLineTerminator c.

Fixpoint trimStart (s : string) : string :=
  match s with
  | "" => ""
  | String c s' => if isWhiteSpace c then trimStart s' else s
  end.

Fixpoint trimEnd (s : string) : string :=
  match s with
  | "" => ""
  | String c s' =>
      match trimEnd s' with
      | "" => if isWhiteSpace c then "" else String c ""
      | kept => String c kept
      end
  end.

Definition trim (s : string) : string := trimEnd (trimStart s).

(** [String.prototype.includes] *)
Fixpoint includes (search s : string) : bool :=
  String.prefix search s ||
  match s with
  | "" => false
  | String _ s' => includes search s'
  end.

(** [locale.split(/-/, 1)[0]]: the text before the first hyphen. *)
Fixpoint beforeHyphen (s : string) : string :=
  match s with
  | "" => ""
  | String c s' => if Ascii.eqb c "-" then "" else String c (beforeHyphen s')
  end.

(** *** Regular expressions of the shape [prefix(.*?)suffix]

    [new RegExp(source, 'g')] is modelled on the pattern syntax that
    [constructTokenRegex] emits: ordinary characters, escaped syntax
    characters and the lazy capture group [(.*?)]. *)

Inductive atom : Type :=
| Literal (c : ascii)
| LazyGroup.

(** The characters with a meaning in a pattern. *)
Definition isSyntaxCharacter (c : ascii) : bool :=
  existsb (Ascii.eqb c)
    (list_ascii_of_string ".*+?^${}()|[]\").

Fixpoint parsePattern (source : string) : option (list atom) :=
  match source with
  | "" => Some []
  | String c rest =>
      if Ascii.eqb c "\" then
        match rest with
        | String d rest' =>
            if isSyntaxCharacter d
            then cons (Literal d) <$> parsePattern rest'
            else None
        | "" => None
        end
      else if Ascii.eqb c "(" then
        match rest with
        | String c1 (String c2 (String c3 (String c4 rest'))) =>
            if String.eqb (String c1 (String c2 (String c3 (String c4 "")))) ".*?)"
            then cons LazyGroup <$> parsePattern rest'
            else None
        | _ => None
        end
      else if isSyntaxCharacter c then None
      else cons (Literal c) <$> parsePattern rest
  end.

(** A compiled global pattern [/before(.*?)after/g], [before] and [after]
    being matched literally. *)
Record RegExp : Type := { before : string; after : string }.

Fixpoint literals (atoms : list atom) : option string :=
  match atoms with
  | [] => Some ""
  | Literal c :: rest => String c <$> literals rest
  | LazyGroup :: _ => None
  end.

Fixpoint compile (atoms : list atom) : option RegExp :=
  match atoms with
  | [] => None
  | Literal c :: rest =>
      (fun re => {| before := String c (before re); after := after re |})
        <$> compile rest
  | LazyGroup :: rest =>
      (fun s => {| before := ""; after := s |}) <$> literals rest
  end.

Definition newRegExp (source : string) : result RegExp :=
  match parsePattern source ≫= compile with
  | Some re => Ok re
  | None => Throw (SyntaxError "Invalid regular expression")
  end.

Fixpoint drop (n : nat) (s : string) : string :=
  match n, s with
  | S k, String _ s' => drop k s'
  | _, _ => s
  end.

(** The lazy group followed by [after]: the shortest run of characters
    other than line terminators after which [after] stands. *)
Fixpoint lazyCapture (after s : string) : option string :=
  if String.prefix after s then Some ""
  else match s with
       | "" => None
       | String c s' =>
           if isLineTerminator c then None
           else String c <$> lazyCapture after s'
       end.

(** A match starting at the first code unit of [s]: the matched text and
    the captured group. *)
Definition matchAt (re : RegExp) (s : string) : option (string * string) :=
  if String.prefix (before re) s
  then (fun captured => (before re +:+ captured +:+ after re, captured))
         <$> lazyCapture (after re) (drop (String.length (before re)) s)
  else None.

(** [s.replace(re, replacer)] for a global [re]: matches are searched left
    to right, each search starting where the previous match ended (one code
    unit later after an empty match); the text between matches is kept. *)
Fixpoint replace_from (re : RegExp) (replacer : string -> string -> value)
    (skip : nat) (s : string) : string :=
  match s with
  | "" =>
      match skip, matchAt re "" with
      | O, Some (matched, captured) => toString (replacer matched captured)
      | _, _ => ""
      end
  | String c s' =>
      match skip with
      | S k => replace_from re replacer k s'
      | O =>
          match matchAt re s with
          | Some (matched, captured) =>
              toString (replacer matched captured) +:+
              match String.length matched with
              | O => String c (replace_from re replacer 0 s')
              | S k => replace_from re replacer k s'
              end
          | None => String c (replace_from re replacer 0 s')
          end
      end
  end.

Definition replace (re : RegExp) (replacer : string -> string -> value)
    (s : string) : string :=
  replace_from re replacer 0 s.

End Js.

(** ** The program *)

Module Index.
Import Js.

(** *** Pluralization methods *)

(** The string that separates the different phrase possibilities. *)
Definition delimiter : string := "||||".

Definition arabicPluralGroups (n : Z) : Z :=
  if n <? 3 then n
  else
    let lastTwo := Z.rem n 100 in
    if (lastTwo >=? 3) && (lastTwo <=? 10) then 3
    else if lastTwo >=? 11 then 4 else 5.

Definition chinesePluralGroups (_ : Z) : Z := 0.

Definition czechPluralGroups (n : Z) : Z :=
  if n =? 1 then 0
  else if (n >=? 2) && (n <=? 4) then 1 else 2.

Definition frenchPluralGroups (n : Z) : Z :=
  if n >? 1 then 1 else 0.

Definition germanPluralGroups (n : Z) : Z :=
  if n =? 1 then 0 else 1.

Definition icelandicPluralGroups (n : Z) : Z :=
  if negb (Z.rem n 10 =? 1) || (Z.rem n 100 =? 11) then 1 else 0.

Definition lithuanianPluralGroups (n : Z) : Z :=
  let lastTwo := Z.rem n 100 in
  let lastOne := Z.rem lastTwo 10 in
  if (lastOne =? 1) && negb (lastTwo =? 11) then 0
  else if (lastOne >=? 2) && (lastOne <=? 9)
          && ((lastTwo <? 11) || (lastTwo >? 19)) then 1 else 2.

Definition polistPluralGroups (n : Z) : Z :=
  if n =? 1 then 0
  else
    let lastTwo := Z.rem n 100 in
    let lastOne := Z.rem lastTwo 10 in
    if (lastOne >=? 2) && (lastOne <=? 4)
       && ((lastTwo <? 10) || (lastTwo >=? 20)) then 1 else 2.

Definition russianPluralGroups (n : Z) : Z :=
  let lastTwo := Z.rem n 100 in
  let lastOne := Z.rem lastTwo 10 in
  if negb (lastTwo =? 11) && (lastOne =? 1) then 0
  else if (lastOne >=? 2) && (lastOne <=? 4)
          && negb ((lastTwo >=? 12) && (lastTwo <=? 14)) then 1 else 2.

Definition slovenianPluralGroups (n : Z) : Z :=
  match Z.rem n 100 with
  | 1 => 0
  | 2 => 1
  | 3 | 4 => 2
  | _ => 3
  end.

Record PluralRules : Type := {
  (** Mapping from pluralization group to plural logic. *)
  pluralTypes : gmap string (Z -> Z);
  (** Mapping from pluralization group to individual language codes,
      in the order [Object.entries] lists them. *)
  pluralTypeToLanguages : list (string * list string)
}.

Definition defaultPluralRules : PluralRules := {|
  pluralTypes := list_to_map [
    ("arabic", arabicPluralGroups);
    ("bosnian_serbian", russianPluralGroups);
    ("chinese", chinesePluralGroups);
    ("czech", czechPluralGroups);
    ("croatian", russianPluralGroups);
    ("french", frenchPluralGroups);
    ("german", germanPluralGroups);
    ("icelandic", icelandicPluralGroups);
    ("lithuanian", lithuanianPluralGroups);
    ("polish", polistPluralGroups);
    ("russian", russianPluralGroups);
    ("slovenian", slovenianPluralGroups) ];
  pluralTypeToLanguages := [
    ("arabic", ["ar"]);
    ("bosnian_serbian", ["bs-Latn-BA"; "bs-Cyrl-BA"; "srl-RS"; "sr-RS"]);
    ("chinese", ["id"; "id-ID"; "ja"; "ko"; "ko-KR"; "lo"; "ms"; "th"; "th-TH"; "zh"]);
    ("croatian", ["hr"; "hr-HR"]);
    ("german", ["fa"; "da"; "de"; "en"; "es"; "fi"; "el"; "he"; "hi-IN"; "hu";
                "hu-HU"; "it"; "nl"; "no"; "pt"; "sv"; "tr"]);
    ("french", ["fr"; "tl"; "pt-br"]);
    ("russian", ["ru"; "ru-RU"]);
    ("lithuanian", ["lt"]);
    ("czech", ["cs"; "cs-CZ"; "sk"]);
    ("polish", ["pl"]);
    ("icelandic", ["is"]);
    ("slovenian", ["sl-SL"]) ]
|}.

(** The filter by [Boolean] drops the empty entries of [langs]. *)
Definition accumulateToTypeMap (accumulator : object)
    (entry : string * list string) : object :=
  let '(type, langs) := entry in
  if (0 <? Z.of_nat (length langs))
  then fold_left (fun acc lang => set acc lang (VString type))
                 (List.filter (fun lang => truthy (VString lang)) langs)
                 accumulator
  else accumulator.

Definition langToTypeMap (mapping : list (string * list string)) : object :=
  fold_left accumulateToTypeMap mapping ∅.

Definition pluralTypeName (pluralRules : PluralRules) (locale : string) : value :=
  let langToPluralType := langToTypeMap (pluralTypeToLanguages pluralRules) in
  or (or (get langToPluralType locale)
         (get langToPluralType (beforeHyphen locale)))
     (get langToPluralType "en").

(** Only the own properties of [pluralTypes] are represented: a group name
    that is not among them is not callable. *)
Definition pluralTypeIndex (pluralRules : PluralRules) (locale : string)
    (count : Z) : result Z :=
  match pluralTypes pluralRules !! toString (pluralTypeName pluralRules locale) with
  | Some groups => Ok (groups count)
  | None =>
      Throw (TypeError "pluralRules.pluralTypes[pluralTypeName(...)] is not a function")
  end.

(** *** The token matcher *)

Fixpoint escape (token : string) : string :=
  match token with
  | "" => ""
  | String c rest =>
      if isSyntaxCharacter c
      then String "\" (String c (escape rest))
      else String c (escape rest)
  end.

Record InterpolationOptions : Type := {
  prefix : option string;
  suffix : option string
}.

Definition quote : string := String (ascii_of_nat 34) "".

Definition constructTokenRegex (options : option InterpolationOptions)
  : result RegExp :=
  let options := default {| prefix := None; suffix := None |} options in
  let prefix := default "%{" (prefix options) in
  let suffix := default "}" (suffix options) in
  if String.eqb prefix delimiter || String.eqb suffix delimiter
  then Throw (RangeError (quote +:+ delimiter +:+ quote
                          +:+ " token is reserved for pluralization"))
  else newRegExp (escape prefix +:+ "(.*?)" +:+ escape suffix).

(** The literal [/%\{(.*?)\}/g]. *)
Definition defaultTokenRegex : RegExp := {| before := "%{"; after := "}" |}.

(** *** Polyglot.transformPhrase(phrase, substitutions, locale) *)

(** The second argument: absent, a number, or an object of named values. *)
Inductive substitutions : Type :=
| Absent
| Count (n : Z)
| Named (o : object).

(** [texts[index] || texts[0]] *)
Definition pluralForm (texts : list string) (index : Z) : value :=
  or (Js.index texts index) (Js.index texts 0).

(** The object the placeholders are read from: a number stands for
    [{ smart_count: number }]. *)
Definition optionsOf (substitutions : substitutions) : object :=
  match substitutions with
  | Count n => {[ "smart_count" := VNumber n ]}
  | Named o => o
  | Absent => ∅
  end.

(** Interpolate: the replacement of one placeholder occurrence. *)
Definition replacer (options : object) (expression argument : string) : value :=
  let replacement := get options argument in
  if String.eqb (typeof replacement) "undefined"
  then VString expression
  else replacement.

Definition transformPhrase (phrase : value) (substitutions : substitutions)
    (locale : option string) (tokenRegex : option RegExp)
    (pluralRules : option PluralRules) : result string :=
  let locale := default "en" locale in
  let tokenRegex := default defaultTokenRegex tokenRegex in
  let pluralRules := default defaultPluralRules pluralRules in
  match phrase with
  | VString phrase =>
      match substitutions with
      | Absent => Ok phrase
      | _ =>
          (* allow number as a pluralization shortcut *)
          let options := optionsOf substitutions in
          bind
            (* Select plural form: only done if the count is a number and
               the phrase is not empty. *)
            match get options "smart_count" with
            | VNumber smartCount =>
                if truthy (VString phrase) then
                  let texts := split delimiter phrase in
                  bind (pluralTypeIndex pluralRules locale smartCount)
                    (fun index =>
                       match pluralForm texts index with
                       | VString form => Ok (trim form)
                       | _ => Throw (TypeError "Cannot read properties of undefined (reading 'trim')")
                       end)
                else Ok phrase
            | _ => Ok phrase
            end
            (fun result => Ok (replace tokenRegex (replacer options) result))
      end
  | _ => Throw (TypeError "Polyglot.transformPhrase expects argument #1 to be string")
  end.

(** *** The Polyglot class *)

(** A missing-key handler, called with the key, the options, the current
    locale, the token matcher and the plural rules. *)
Definition handler : Type :=
  string -> substitutions -> string -> RegExp -> PluralRules -> result value.

Record Polyglot : Type := {
  phrases : object;
  currentLocale : string;
  onMissingKey : option handler;
  tokenRegex : RegExp;
  pluralRules : PluralRules
}.

(** A phrases object as given to [extend]: a primitive value, or a nested
    object by its entries in the order [Object.entries] lists them. *)
#[warnings="-register-all"]
Inductive phraseTree : Type :=
| Phrase (v : value)
| Phrases (entries : list (string * phraseTree)).

(** The key under which an entry is stored: prefixed in dot notation when
    the prefix is given and not empty. *)
Definition prefixedKey (prefix : option string) (key : string) : string :=
  match prefix with
  | Some p => if truthy (VString p) then p +:+ "." +:+ key else key
  | None => key
  end.

(** [extend] on one entry whose key is already prefixed; a nested object
    is entered with that key as the prefix. *)
Fixpoint extendEntry (phrases : object) (key : string) (phrase : phraseTree)
  : result object :=
  match phrase with
  | Phrases entries =>
      (fix forEach (entries : list (string * phraseTree)) (phrases : object)
         : result object :=
         match entries with
         | [] => Ok phrases
         | (k, p) :: rest =>
             bind (extendEntry phrases (prefixedKey (Some key) k) p)
                  (forEach rest)
         end) entries phrases
  | Phrase v =>
      if String.eqb (typeof v) "object" then
        match v with
        | VNull => Throw (TypeError "Cannot convert undefined or null to object")
        | _ => Ok phrases
        end
      else Ok (set phrases key v)
  end.

Fixpoint extend (phrases : object) (morePhrases : list (string * phraseTree))
    (prefix : option string) : result object :=
  match morePhrases with
  | [] => Ok phrases
  | (key, phrase) :: rest =>
      bind (extendEntry phrases (prefixedKey prefix key) phrase)
           (fun phrases => extend phrases rest prefix)
  end.

(** The options of the constructor.  The [warn] callback is not a field:
    [t] returns the messages it passes to it. *)
Module Options.
Record t : Type := {
  phrases : option (list (string * phraseTree));
  locale : option string;
  allowMissing : bool;
  onMissingKey : option handler;
  interpolation : option InterpolationOptions;
  pluralRules : option PluralRules
}.

Definition empty : t := {|
  phrases := None; locale := None; allowMissing := false;
  onMissingKey := None; interpolation := None; pluralRules := None
|}.
End Options.

(** [allowMissing] installs [transformPhrase] as the handler. *)
Definition transformKey : handler :=
  fun key options locale tokenRegex pluralRules =>
    bind (transformPhrase (VString key) options (Some locale)
            (Some tokenRegex) (Some pluralRules))
         (fun s => Ok (VString s)).

Definition new (options : Options.t) : result Polyglot :=
  bind (extend ∅ (default [] (Options.phrases options)) None) (fun phrases =>
  let currentLocale :=
    match Options.locale options with
    | Some l => if truthy (VString l) then l else "en"
    | None => "en"
    end in
  let allowMissing :=
    if Options.allowMissing options then Some transformKey else None in
  let onMissingKey :=
    match Options.onMissingKey options with
    | Some f => Some f
    | None => allowMissing
    end in
  bind (constructTokenRegex (Options.interpolation options)) (fun tokenRegex =>
  Ok {| phrases := phrases;
        currentLocale := currentLocale;
        onMissingKey := onMissingKey;
        tokenRegex := tokenRegex;
        pluralRules := default defaultPluralRules (Options.pluralRules options) |})).

(** [options._] *)
Definition defaultPhrase (options : substitutions) : value :=
  match options with
  | Named o => get o "_"
  | _ => VUndefined
  end.

(** Polyglot#t(key, options): the returned value or thrown error, and the
    messages passed to [this.warn]. *)
Definition t (this : Polyglot) (key : string) (options : substitutions)
  : result value * list string :=
  let options := match options with Absent => Named ∅ | _ => options end in
  let transform (phrase : string) : result value * list string :=
    (bind (transformPhrase (VString phrase) options (Some (currentLocale this))
             (Some (tokenRegex this)) (Some (pluralRules this)))
          (fun s => Ok (VString s)), []) in
  match get (phrases this) key with
  | VString phrase => transform phrase
  | _ =>
      match defaultPhrase options with
      | VString phrase => transform phrase
      | _ =>
          match onMissingKey this with
          | Some onMissingKey =>
              (onMissingKey key options (currentLocale this) (tokenRegex this)
                 (pluralRules this), [])
          | None =>
              (Ok (VString key),
               ["Missing translation for key: " +:+ quote +:+ key +:+ quote])
          end
      end
  end.

(** Polyglot#has(key) *)
Definition has (this : Polyglot) (key : string) : bool :=
  truthy (get (phrases this) key).

End Index.

(** ** Specification-side definitions *)

Module Spec.

(** The selection as the specification words it: [forms[index]], and
    [forms[0]] when [index] is out of bounds. *)
Definition selectForm (forms : list string) (index : Z) : string :=
  if (0 <=? index) && (index <? Z.of_nat (length forms))
  then nth (Z.to_nat index) forms ""
  else nth 0 forms "".

(** The error the specification calls InvalidArgument. *)
Definition InvalidArgument : Js.error :=
  Js.TypeError "Polyglot.transformPhrase expects argument #1 to be string".

(** The error the specification calls InvalidConfiguration. *)
Definition InvalidConfiguration : Js.error :=
  Js.RangeError (Index.quote +:+ "||||" +:+ Index.quote
                 +:+ " token is reserved for pluralization").

End Spec.

(** ** Phrases and instances used as examples *)

Module Examples.
Import Js Index.

Definition english : string :=
  "%{smart_count} Name |||| %{smart_count} Names".


Definition threeForms : string := "a |||| b |||| c".

(** [new Polyglot({ phrases: { hello: 'Hello', empty_string: '' } })] *)
Definition options : Options.t := {|
  Options.phrases :=
    Some [("hello", Phrase (VString "Hello"));
          ("empty_string", Phrase (VString ""))];
  Options.locale := None;
  Options.allowMissing := false;
  Options.onMissingKey := None;
  Options.interpolation := None;
  Options.pluralRules := None
|}.

Definition polyglot : Polyglot := {|
  phrases := {[ "hello" := VString "Hello"; "empty_string" := VString "" ]};
  currentLocale := "en";
  onMissingKey := None;
  tokenRegex := defaultTokenRegex;
  pluralRules := defaultPluralRules
|}.

End Examples.

(** ** The methods that change an instance *)

Module Methods.
Import Js Index.

(** A method that changes the phrases returns them as the call leaves them,
    with the error if the call threw: what was stored before the throw stays
    stored. *)

Definition withPhrases (this : Polyglot) (stored : object) : Polyglot := {|
  phrases := stored;
  currentLocale := currentLocale this;
  onMissingKey := onMissingKey this;
  tokenRegex := tokenRegex this;
  pluralRules := pluralRules this
|}.

(** Polyglot#locale([locale]): get or set the locale. *)
Definition locale (this : Polyglot) (newLocale : option string)
  : Polyglot * string :=
  let this :=
    match newLocale with
    | Some l =>
        if truthy (VString l)
        then {| phrases := phrases this;
                currentLocale := l;
                onMissingKey := onMissingKey this;
                tokenRegex := tokenRegex this;
                pluralRules := pluralRules this |}
        else this
    | None => this
    end in
  (this, currentLocale this).

Definition nullEntries : error :=
  TypeError "Cannot convert undefined or null to object".

(** Polyglot#extend(phrases, prefix), on one entry whose key is already
    prefixed. *)
Fixpoint extendEntry (phrases : object) (key : string) (phrase : phraseTree)
  : object * option error :=
  match phrase with
  | Phrases entries =>
      (fix forEach (entries : list (string * phraseTree)) (phrases : object)
         : object * option error :=
         match entries with
         | [] => (phrases, None)
         | (k, p) :: rest =>
             match extendEntry phrases (prefixedKey (Some key) k) p with
             | (phrases, None) => forEach rest phrases
             | thrown => thrown
             end
         end) entries phrases
  | Phrase v =>
      if String.eqb (typeof v) "object" then
        match v with
        | VNull => (phrases, Some nullEntries)
        | _ => (phrases, None)
        end
      else (set phrases key v, None)
  end.

Fixpoint extendPhrases (phrases : object)
    (morePhrases : list (string * phraseTree)) (prefix : option string)
  : object * option error :=
  match morePhrases with
  | [] => (phrases, None)
  | (key, phrase) :: rest =>
      match extendEntry phrases (prefixedKey prefix key) phrase with
      | (phrases, None) => extendPhrases phrases rest prefix
      | thrown => thrown
      end
  end.

Definition extend (this : Polyglot) (morePhrases : list (string * phraseTree))
    (prefix : option string) : Polyglot * option error :=
  let '(stored, thrown) := extendPhrases (phrases this) morePhrases prefix in
  (withPhrases this stored, thrown).

(** Polyglot#unset(phrases, prefix), on one entry whose key is already
    prefixed. *)
Fixpoint unsetEntry (phrases : object) (key : string) (phrase : phraseTree)
  : object * option error :=
  match phrase with
  | Phrases entries =>
      (fix forEach (entries : list (string * phraseTree)) (phrases : object)
         : object * option error :=
         match entries with
         | [] => (phrases, None)
         | (k, p) :: rest =>
             match unsetEntry phrases (prefixedKey (Some key) k) p with
             | (phrases, None) => forEach rest phrases
             | thrown => thrown
             end
         end) entries phrases
  | Phrase v =>
      if String.eqb (typeof v) "object" then
        match v with
        | VNull => (phrases, Some nullEntries)
        | _ => (phrases, None)
        end
      else (delete key phrases, None)
  end.

Fixpoint unsetPhrases (phrases : object)
    (morePhrases : list (string * phraseTree)) (prefix : option string)
  : object * option error :=
  match morePhrases with
  | [] => (phrases, None)
  | (key, phrase) :: rest =>
      match unsetEntry phrases (prefixedKey prefix key) phrase with
      | (phrases, None) => unsetPhrases phrases rest prefix
      | thrown => thrown
      end
  end.

(** The first argument of [unset]: a key, or an object hash of keys. *)
Inductive unsetArgument : Type :=
| Key (key : string)
| Hash (entries : list (string * phraseTree)).

Definition unset (this : Polyglot) (morePhrases : unsetArgument)
    (prefix : option string) : Polyglot * option error :=
  match morePhrases with
  | Key key => (withPhrases this (delete key (phrases this)), None)
  | Hash entries =>
      let '(stored, thrown) := unsetPhrases (phrases this) entries prefix in
      (withPhrases this stored, thrown)
  end.

(** Polyglot#clear() *)
Definition clear (this : Polyglot) : Polyglot := withPhrases this ∅.

(** Polyglot#replace(phrases) *)
Definition replace (this : Polyglot) (newPhrases : list (string * phraseTree))
  : Polyglot * option error :=
  extend (clear this) newPhrases None.

End Methods.

(** ** Definitions used to state the properties *)

Module Props.
Import Js Index.

(** The values of a phrases object with the dotted keys under which [extend]
    meets them, in the order in which it meets them. *)
Fixpoint leaves (key : string) (phrase : phraseTree) : list (string * value) :=
  match phrase with
  | Phrase v => [(key, v)]
  | Phrases entries =>
      (fix each (entries : list (string * phraseTree)) : list (string * value) :=
         match entries with
         | [] => []
         | (k, p) :: rest => (leaves (prefixedKey (Some key) k) p ++ each rest)%list
         end) entries
  end.

Fixpoint flatten (prefix : option string) (morePhrases : list (string * phraseTree))
  : list (string * value) :=
  match morePhrases with
  | [] => []
  | (key, phrase) :: rest =>
      (leaves (prefixedKey prefix key) phrase ++ flatten prefix rest)%list
  end.

Definition isNull (entry : string * value) : bool :=
  match entry.2 with VNull => true | _ => false end.

(** The entries met before the first null. *)
Fixpoint untilNull (entries : list (string * value)) : list (string * value) :=
  match entries with
  | [] => []
  | entry :: rest => if isNull entry then [] else entry :: untilNull rest
  end.

(** The entries that are stored or deleted: those whose value is not an
    object. *)
Definition isPhrase (entry : string * value) : bool :=
  negb (String.eqb (typeof entry.2) "object").

Definition touched (prefix : option string)
    (morePhrases : list (string * phraseTree)) : list (string * value) :=
  List.filter isPhrase (untilNull (flatten prefix morePhrases)).

Definition assignAll (phrases : object) (entries : list (string * value)) : object :=
  fold_left (fun acc entry => set acc entry.1 entry.2) entries phrases.

Definition deleteAll (phrases : object) (keys : list string) : object :=
  fold_left (fun acc key => delete key acc) keys phrases.

Definition thrownBy (entries : list (string * value)) : option error :=
  if existsb isNull entries then Some Methods.nullEntries else None.

(** A language is entered under a group when it is listed, not empty and not
    the name of the prototype accessor. *)
Definition entered (lang : string) (langs : list string) : bool :=
  existsb (String.eqb lang) langs
  && negb (String.eqb lang "") && negb (String.eqb lang "__proto__").

(** What storing the entries of a flat list does: those before the first
    null are assigned unless they are objects, and a null throws. *)
Definition stores (phrases : object) (entries : list (string * value))
  : object * option error :=
  (assignAll phrases (List.filter isPhrase (untilNull entries)), thrownBy entries).

Definition deletes (phrases : object) (entries : list (string * value))
  : object * option error :=
  (deleteAll phrases (map fst (List.filter isPhrase (untilNull entries))),
   thrownBy entries).

(** The outcome of a call that throws away what it stored when it throws. *)
Definition outcome (after : object * option error) : result object :=
  match after with
  | (stored, None) => Ok stored
  | (_, Some e) => Throw e
  end.

(** The interpolation options name the delimiter as prefix or suffix. *)
Definition reserved (options : option InterpolationOptions) : bool :=
  match options with
  | Some o =>
      String.eqb (default "%{" (prefix o)) delimiter
      || String.eqb (default "}" (suffix o)) delimiter
  | None => false
  end.

(** A text without its last code unit. *)
Fixpoint allButLast (s : string) : string :=
  match s with
  | "" => ""
  | String c "" => ""
  | String c rest => String c (allButLast rest)
  end.

(** No code unit of the text is a line terminator. *)
Fixpoint singleLine (s : string) : bool :=
  match s with
  | "" => true
  | String c rest => negb (isLineTerminator c) && singleLine rest
  end.

End Props.

(** ** Further examples *)

Module MoreExamples.
Import Js Index.

(** Rules of two groups that list the locales [x1] and [x2] only. *)
Definition customPluralRules : PluralRules := {|
  pluralTypes := list_to_map [
    ("germanLike", fun n => if n =? 1 then 0 else 1);
    ("frenchLike", fun n => if n <=? 1 then 0 else 1) ];
  pluralTypeToLanguages := [ ("germanLike", ["x1"]); ("frenchLike", ["x2"]) ]
|}.

(** [{ nav: { hello: 'Hello', cta: { join: 'Join now!' } }, bye: 'Bye' }] *)
Definition nested : list (string * phraseTree) :=
  [ ("nav", Phrases [ ("hello", Phrase (VString "Hello"));
                      ("cta", Phrases [ ("join", Phrase (VString "Join now!")) ]) ]);
    ("bye", Phrase (VString "Bye")) ].

(** [new Polyglot({ phrases: { hello: 'Hello' }, allowMissing: true })] *)
Definition allowing : Options.t := {|
  Options.phrases := Some [("hello", Phrase (VString "Hello"))];
  Options.locale := None;
  Options.allowMissing := true;
  Options.onMissingKey := None;
  Options.interpolation := None;
  Options.pluralRules := None
|}.

Definition allowingPolyglot : Polyglot := {|
  phrases := {[ "hello" := VString "Hello" ]};
  currentLocale := "en";
  onMissingKey := Some transformKey;
  tokenRegex := defaultTokenRegex;
  pluralRules := defaultPluralRules
|}.

End MoreExamples.

(** ** Facts about the JavaScript primitives *)

Module JsFacts.
Import Js.

Lemma append_cons (c : ascii) (a b : string) :
  String c a +:+ b = String c (a +:+ b).
Proof. reflexivity. Qed.

Lemma append_empty_l (s : string) : "" +:+ s = s.
Proof. reflexivity. Qed.

Lemma append_empty_r (s : string) : s +:+ "" = s.
Proof.
  induction s as [|c s IH]; [reflexivity | now rewrite append_cons, IH].
Qed.

Lemma append_assoc (a b c : string) : (a +:+ b) +:+ c = a +:+ (b +:+ c).
Proof.
  induction a as [|x a IH]; [reflexivity | now rewrite !append_cons, IH].
Qed.

Lemma append_snoc (a : string) (c : ascii) (b : string) :
  (a +:+ String c "") +:+ b = a +:+ String c b.
Proof. now rewrite append_assoc. Qed.

(** [String.prefix p s] holds exactly when [s] starts with [p]. *)
Lemma prefix_append (p s : string) :
  String.prefix p s = true <-> exists r, s = p +:+ r.
Proof.
  revert s; induction p as [|c p IH]; intros s.
  - destruct s; simpl; split; eauto.
  - destruct s as [|d s]; simpl.
    + split; [discriminate | intros [r Hr]; discriminate].
    + destruct (ascii_dec c d) as [->|Hne].
      * rewrite IH. split; intros [r Hr]; exists r;
          rewrite append_cons in *; congruence.
      * split; [discriminate |].
        intros [r Hr]. rewrite append_cons in Hr. congruence.
Qed.

Lemma prefix_length (p s : string) :
  String.prefix p s = true -> (String.length p <= String.length s)%nat.
Proof.
  revert s; induction p as [|c p IH]; intros [|d s]; simpl; try lia;
    try discriminate.
  destruct (ascii_dec c d); [|discriminate]. intros H; apply IH in H; lia.
Qed.

Lemma drop_append (p r : string) : drop (String.length p) (p +:+ r) = r.
Proof. induction p; [reflexivity | now rewrite append_cons]. Qed.

(** [includes search s] holds exactly when [search] occurs in [s]. *)
Lemma includes_spec (search s : string) :
  includes search s = true <-> exists a b, s = a +:+ search +:+ b.
Proof.
  induction s as [|c s IH].
  - cbn [includes]. rewrite orb_false_r, prefix_append. split.
    + intros [r Hr]. now exists "", r.
    + intros [[|x a] [b Hb]]; [now exists b | discriminate].
  - cbn [includes]. rewrite orb_true_iff, prefix_append, IH. split.
    + intros [[r Hr] | (a & b & Hab)].
      * now exists "", r.
      * exists (String c a), b. now rewrite append_cons, Hab.
    + intros [[|x a] [b Hb]].
      * left. now exists b.
      * right. exists a, b. rewrite append_cons in Hb. congruence.
Qed.

Lemma includes_tail (search : string) (c : ascii) (s : string) :
  includes search (String c s) = false ->
  String.prefix search (String c s) = false /\ includes search s = false.
Proof. cbn [includes]. now rewrite orb_false_iff. Qed.

(** *** split *)

Lemma split_from_absent (separator : string) (s piece : string) :
  includes separator s = false ->
  split_from separator 0 piece s = [piece +:+ s].
Proof.
  revert piece; induction s as [|c s IH]; intros piece H.
  - cbn [split_from]. now rewrite append_empty_r.
  - apply includes_tail in H as [Hp Hs].
    cbn [split_from]. rewrite Hp, (IH _ Hs). now rewrite append_snoc.
Qed.

(** Splitting on a separator that does not occur yields the string. *)
Lemma split_absent (separator s : string) :
  includes separator s = false -> split separator s = [s].
Proof. intros H. unfold split. now rewrite split_from_absent. Qed.

Lemma split_from_not_nil (separator : string) (s : string) (skip : nat)
    (piece : string) :
  split_from separator skip piece s <> [].
Proof.
  revert skip piece; induction s as [|c s IH]; intros skip piece;
    cbn [split_from].
  - discriminate.
  - destruct skip; [destruct (String.prefix _ _)|]; auto; discriminate.
Qed.

Lemma join_cons (separator x : string) (rest : list string) :
  rest <> [] ->
  join separator (x :: rest) = x +:+ separator +:+ join separator rest.
Proof. destruct rest; [congruence | reflexivity]. Qed.

Lemma join_split_from (separator : string) (s : string) (skip : nat)
    (piece : string) :
  separator <> "" ->
  (skip <= String.length s)%nat ->
  join separator (split_from separator skip piece s) = piece +:+ drop skip s.
Proof.
  intros Hsep. revert skip piece.
  induction s as [|c s IH]; intros skip piece Hskip.
  - simpl in Hskip. replace skip with 0%nat by lia.
    cbn [split_from join drop]. now rewrite append_empty_r.
  - cbn [split_from]. destruct skip as [|k].
    + destruct (String.prefix separator (String c s)) eqn:Hp.
      * rewrite join_cons by apply split_from_not_nil.
        pose proof (prefix_length _ _ Hp) as Hlen.
        apply prefix_append in Hp as [r Hr].
        destruct separator as [|d sep]; [congruence|].
        rewrite append_cons in Hr. injection Hr as -> ->.
        replace (String.length (String d sep) - 1)%nat
          with (String.length sep) by (simpl; lia).
        rewrite IH by (simpl in Hlen; lia).
        now rewrite drop_append, append_empty_l.
      * rewrite IH by lia. cbn [drop]. now rewrite append_snoc.
    + simpl in Hskip. rewrite IH by lia. reflexivity.
Qed.

(** Joining the pieces with the separator gives the string back. *)
Lemma join_split (separator s : string) :
  separator <> "" -> join separator (split separator s) = s.
Proof.
  intros H. unfold split. now rewrite join_split_from by (auto; lia).
Qed.

(** *** Array access and the form selection *)

Lemma index_lookup (a : list string) (i : nat) :
  index a (Z.of_nat i) =
  match a !! i with Some s => VString s | None => VUndefined end.
Proof.
  unfold index. destruct (Z.ltb_spec (Z.of_nat i) 0); [lia|].
  now rewrite Nat2Z.id.
Qed.

Lemma index_out_of_bounds (a : list string) (i : Z) :
  i < 0 \/ Z.of_nat (length a) <= i -> index a i = VUndefined.
Proof.
  unfold index. intros H. destruct (Z.ltb_spec i 0); [reflexivity|].
  rewrite (proj2 (lookup_ge_None a (Z.to_nat i))); [reflexivity | lia].
Qed.

(** *** Patterns *)

Lemma isSyntaxCharacter_backslash (c : ascii) :
  isSyntaxCharacter c = false -> Ascii.eqb c "\" = false.
Proof.
  intros H. destruct (Ascii.eqb_spec c "\") as [->|]; [|reflexivity].
  discriminate H.
Qed.

Lemma isSyntaxCharacter_paren (c : ascii) :
  isSyntaxCharacter c = false -> Ascii.eqb c "(" = false.
Proof.
  intros H. destruct (Ascii.eqb_spec c "(") as [->|]; [|reflexivity].
  discriminate H.
Qed.

Lemma parsePattern_ordinary (c : ascii) (rest : string) :
  isSyntaxCharacter c = false ->
  parsePattern (String c rest) = cons (Literal c) <$> parsePattern rest.
Proof.
  intros H. cbn [parsePattern].
  now rewrite (isSyntaxCharacter_backslash c H), (isSyntaxCharacter_paren c H), H.
Qed.

Lemma parsePattern_escaped (c : ascii) (rest : string) :
  isSyntaxCharacter c = true ->
  parsePattern (String "\" (String c rest)) = cons (Literal c) <$> parsePattern rest.
Proof. intros H. cbn [parsePattern]. now rewrite Ascii.eqb_refl, H. Qed.

Lemma parsePattern_group (rest : string) :
  parsePattern ("(.*?)" +:+ rest) = cons LazyGroup <$> parsePattern rest.
Proof. reflexivity. Qed.

Lemma literals_map (l : list ascii) :
  literals (map Literal l) = Some (string_of_list_ascii l).
Proof. induction l as [|c l IH]; simpl; [reflexivity | now rewrite IH]. Qed.

Lemma compile_literals (p s : list ascii) :
  compile (map Literal p ++ LazyGroup :: map Literal s) =
  Some {| before := string_of_list_ascii p; after := string_of_list_ascii s |}.
Proof.
  induction p as [|c p IH]; simpl.
  - now rewrite literals_map.
  - now rewrite IH.
Qed.

End JsFacts.

(** ** Facts about the program *)

Module IndexFacts.
Import Js JsFacts Index.

(** *** The token matcher *)

Lemma parsePattern_escape (token rest : string) :
  parsePattern (escape token +:+ rest) =
  app (map Literal (list_ascii_of_string token)) <$> parsePattern rest.
Proof.
  induction token as [|c token IH]; cbn [escape].
  - rewrite append_empty_l. now destruct (parsePattern rest).
  - destruct (isSyntaxCharacter c) eqn:Hc; rewrite !append_cons.
    + rewrite (parsePattern_escaped _ _ Hc), IH.
      now destruct (parsePattern rest).
    + rewrite (parsePattern_ordinary _ _ Hc), IH.
      now destruct (parsePattern rest).
Qed.

(** Escaping makes the prefix and the suffix literal: the pattern built
    from them compiles, to the matcher of exactly these two texts. *)
Lemma newRegExp_escape (prefix suffix : string) :
  newRegExp (escape prefix +:+ "(.*?)" +:+ escape suffix) =
  Ok {| before := prefix; after := suffix |}.
Proof.
  unfold newRegExp.
  rewrite parsePattern_escape, parsePattern_group.
  rewrite <- (append_empty_r (escape suffix)), parsePattern_escape.
  cbn [parsePattern fmap option_fmap option_map mbind option_bind].
  rewrite app_nil_r, compile_literals.
  now rewrite !string_of_list_ascii_of_string.
Qed.

Lemma constructTokenRegex_unreserved (p s : option string) :
  p <> Some delimiter -> s <> Some delimiter ->
  constructTokenRegex (Some {| prefix := p; suffix := s |}) =
  Ok {| before := default "%{" p; after := default "}" s |}.
Proof.
  intros Hp Hs. unfold constructTokenRegex.
  change (default _ (Some ?o)) with o. cbn [prefix suffix].
  destruct (String.eqb_spec (default "%{" p) delimiter) as [Ep|_].
  - destruct p as [p|]; [simpl in Ep; congruence | discriminate Ep].
  - destruct (String.eqb_spec (default "}" s) delimiter) as [Es|_].
    + destruct s as [s|]; [simpl in Es; congruence | discriminate Es].
    + apply newRegExp_escape.
Qed.

(** *** The selection of a plural form *)

(** [texts[index] || texts[0]] is the form at [index] unless there is none
    or it is empty, and the first form then. *)
Lemma pluralForm_cons (first : string) (rest : list string) (i : Z) :
  pluralForm (first :: rest) i =
  VString match index (first :: rest) i with
          | VString form => if String.eqb form "" then first else form
          | _ => first
          end.
Proof.
  unfold pluralForm, or.
  destruct (index (first :: rest) i) as [| | | |form| |] eqn:Hi;
    try reflexivity;
    try (unfold index in Hi; destruct (i <? 0); [discriminate|];
         destruct (_ !! _); discriminate).
  cbn [truthy]. now destruct (String.eqb form "").
Qed.

Lemma pluralForm_single (only : string) (i : Z) :
  pluralForm [only] i = VString only.
Proof.
  rewrite pluralForm_cons. unfold index.
  destruct (i <? 0); [reflexivity|].
  destruct (Z.to_nat i) as [|k]; simpl.
  - destruct (String.eqb_spec only ""); congruence.
  - reflexivity.
Qed.

(** *** Interpolation *)

(** Nothing is interpolated into the empty phrase from an object without
    a property of the empty name. *)
Lemma replace_empty (re : RegExp) (options : object) :
  options !! "" = None -> replace re (replacer options) "" = "".
Proof.
  intros H. unfold replace, replace_from, matchAt.
  destruct (before re) as [|c b]; [|reflexivity].
  cbn [String.prefix String.length drop lazyCapture].
  destruct (after re) as [|d a]; [|reflexivity].
  cbn. unfold replacer, get. rewrite H. reflexivity.
Qed.

(** *** The default plural rules *)

(** The group names the default table gives, by exact match, by the text
    before the hyphen, or by the fallback to [en]. *)
Lemma pluralTypeIndex_group (pluralRules : PluralRules) (locale name : string)
    (groups : Z -> Z) (count : Z) :
  pluralTypeName pluralRules locale = VString name ->
  pluralTypes pluralRules !! name = Some groups ->
  pluralTypeIndex pluralRules locale count = Ok (groups count).
Proof.
  intros Hname Hgroups. unfold pluralTypeIndex.
  now rewrite Hname; cbn [toString]; rewrite Hgroups.
Qed.

(** *** transformPhrase *)

(** The arguments left out take their defaults. *)
Lemma transformPhrase_defaults (phrase : value) (substitutions : substitutions) :
  transformPhrase phrase substitutions None None None =
  transformPhrase phrase substitutions (Some "en") (Some defaultTokenRegex)
    (Some defaultPluralRules).
Proof. reflexivity. Qed.

(** The locale matters only through the plural index it resolves to. *)
Lemma transformPhrase_locale (phrase : value) (substitutions : substitutions)
    (locale1 locale2 : string) (tokenRegex : option RegExp)
    (pluralRules : option PluralRules) :
  (forall count,
      pluralTypeIndex (default defaultPluralRules pluralRules) locale1 count =
      pluralTypeIndex (default defaultPluralRules pluralRules) locale2 count) ->
  transformPhrase phrase substitutions (Some locale1) tokenRegex pluralRules =
  transformPhrase phrase substitutions (Some locale2) tokenRegex pluralRules.
Proof.
  intros H. unfold transformPhrase.
  change (default "en" (Some ?l)) with l.
  destruct phrase; try reflexivity.
  destruct substitutions; try reflexivity;
    (destruct (get _ "smart_count"); try reflexivity;
     destruct (truthy _); try reflexivity; now rewrite H).
Qed.

(** With a numeric count whose plural index resolves, the phrase is split,
    one form is selected and trimmed, and the placeholders are replaced. *)
Lemma transformPhrase_plural (phrase : string) (substitutions : substitutions)
    (locale : string) (tokenRegex : RegExp) (pluralRules : PluralRules)
    (count index : Z) (form : string) :
  get (optionsOf substitutions) "smart_count" = VNumber count ->
  pluralTypeIndex pluralRules locale count = Ok index ->
  pluralForm (split delimiter phrase) index = VString form ->
  transformPhrase (VString phrase) substitutions (Some locale)
    (Some tokenRegex) (Some pluralRules) =
  Ok (replace tokenRegex (replacer (optionsOf substitutions)) (trim form)).
Proof.
  intros Hcount Hindex Hform. unfold transformPhrase.
  change (default _ (Some ?x)) with x.
  destruct substitutions as [|n|o]; [discriminate Hcount| |];
    rewrite Hcount; cbn [truthy];
    (destruct (String.eqb_spec phrase "") as [->|_]; cbn [negb bind];
     [ f_equal; f_equal;
       revert Hform; change (split delimiter "") with [""];
       rewrite pluralForm_single; now intros [= <-]
     | now rewrite Hindex; cbn [bind]; rewrite Hform ]).
Qed.

End IndexFacts.

(** ** The properties of the specification *)

Import Js JsFacts Index IndexFacts.

(** *** Plural form selection *)

(** C1, as amended: for every string phrase, locale and substitutions value
    carrying a numeric count whose family function resolves to [index],
    [transformPhrase] splits the phrase on the separator into forms, selects
    [forms[index]], falls back to [forms[0]] when that index is out of bounds
    or when the selected form is the empty string, trims the selected form
    and interpolates it.  The forms joined by the separator are the phrase,
    and the selection is the one by bounds alone unless the form at [index]
    is empty. *)
Theorem transformPhrase_selects_plural_form
    (phrase : string) (substitutions : substitutions) (locale : string)
    (tokenRegex : RegExp) (pluralRules : PluralRules) (count index : Z) :
  get (optionsOf substitutions) "smart_count" = VNumber count ->
  pluralTypeIndex pluralRules locale count = Ok index ->
  let forms := split delimiter phrase in
  let selected :=
    match Js.index forms index with
    | VString form => if String.eqb form "" then nth 0 forms "" else form
    | _ => nth 0 forms ""
    end in
  transformPhrase (VString phrase) substitutions (Some locale)
    (Some tokenRegex) (Some pluralRules) =
  Ok (replace tokenRegex (replacer (optionsOf substitutions)) (trim selected))
  /\ join delimiter forms = phrase
  /\ (Js.index forms index <> VString "" -> selected = Spec.selectForm forms index).
Proof.
  intros Hcount Hindex forms selected. split; [|split].
  - apply (transformPhrase_plural _ _ _ _ _ count index); auto.
    subst selected forms. unfold split.
    pose proof (split_from_not_nil delimiter phrase 0 "") as Hne.
    destruct (split_from delimiter 0 "" phrase) as [|first rest]; [congruence|].
    now rewrite pluralForm_cons.
  - now apply join_split.
  - intros Hform. subst selected. unfold Spec.selectForm, Js.index in *.
    destruct (Z.ltb_spec index 0) as [Hneg|Hpos].
    + destruct (Z.leb_spec 0 index); [lia | reflexivity].
    + destruct (Z.leb_spec 0 index); [|lia]. cbn [andb].
      destruct (forms !! Z.to_nat index) as [form|] eqn:Hlookup.
      * pose proof (lookup_lt_Some _ _ _ Hlookup) as Hlt.
        destruct (Z.ltb_spec index (Z.of_nat (length forms))); [|lia].
        rewrite (nth_lookup_Some _ _ "" _ Hlookup).
        destruct (String.eqb_spec form ""); congruence.
      * apply lookup_ge_None in Hlookup.
        destruct (Z.ltb_spec index (Z.of_nat (length forms))); [lia|].
        reflexivity.
Qed.

Lemma transformPhrase_selects_plural_form_witness :
  transformPhrase (VString Examples.english)
    (Count 2) (Some "en") (Some defaultTokenRegex) (Some defaultPluralRules) =
  Ok "2 Names".
Proof.
  exact (proj1 (transformPhrase_selects_plural_form
                  Examples.english (Count 2)
                  "en" defaultTokenRegex defaultPluralRules 2 1
                  eq_refl eq_refl)).
Defined.

(** C1, as stated, fails: the second form of the phrase [a||||] is within
    bounds and empty, the count 2 selects it under [en], and the result is
    the first form instead. *)
Lemma transformPhrase_empty_form_counterexample :
  let forms := split delimiter "a||||" in
  forms = ["a"; ""]
  /\ pluralTypeIndex defaultPluralRules "en" 2 = Ok 1
  /\ Spec.selectForm forms 1 = ""
  /\ transformPhrase (VString "a||||") (Count 2) (Some "en") None None = Ok "a"
  /\ Ok "a" <>
     Ok (replace defaultTokenRegex (replacer (optionsOf (Count 2)))
           (trim (Spec.selectForm forms 1))).
Proof. vm_compute. repeat split; try reflexivity. discriminate. Qed.

(** *** The argument check *)

(** C2: [transformPhrase] throws the argument error exactly when the phrase
    is not a string; it does for [undefined], [null], [32] and [{}]. *)
Theorem transformPhrase_invalid_argument :
  (forall (phrase : value) (substitutions : substitutions)
          (locale : option string) (tokenRegex : option RegExp)
          (pluralRules : option PluralRules),
      transformPhrase phrase substitutions locale tokenRegex pluralRules =
      Throw Spec.InvalidArgument
      <-> typeof phrase <> "string")
  /\ transformPhrase VUndefined Absent None None None = Throw Spec.InvalidArgument
  /\ transformPhrase VNull Absent None None None = Throw Spec.InvalidArgument
  /\ transformPhrase (VNumber 32) Absent None None None = Throw Spec.InvalidArgument
  /\ transformPhrase VObject Absent None None None = Throw Spec.InvalidArgument.
Proof.
  split; [|repeat split].
  intros phrase substitutions locale tokenRegex pluralRules.
  destruct phrase as [| | | |phrase| |k]; cbn [typeof transformPhrase];
    try (split; [discriminate | reflexivity]).
  - split; [|congruence]. intros H. exfalso. revert H.
    unfold Spec.InvalidArgument.
    destruct substitutions; [discriminate| |];
      (destruct (get _ "smart_count"); try discriminate;
       destruct (truthy _); try discriminate;
       unfold pluralTypeIndex; destruct (_ !! _); [|discriminate];
       cbn [bind]; destruct (pluralForm _ _); discriminate).
  - split; [intros _|reflexivity].
    destruct (String.eqb k "__proto__"); discriminate.
Qed.

(** *** Absent substitutions *)

(** C3: without substitutions the phrase is returned unchanged, for every
    string phrase and every locale. *)
Theorem transformPhrase_identity_without_substitutions
    (phrase : string) (locale : option string) (tokenRegex : option RegExp)
    (pluralRules : option PluralRules) :
  transformPhrase (VString phrase) Absent locale tokenRegex pluralRules = Ok phrase.
Proof. reflexivity. Qed.

(** *** The reserved delimiter *)

(** C4: building the token matcher throws the configuration error exactly
    when the supplied prefix or the supplied suffix is the delimiter; every
    other pair builds the matcher of that prefix and suffix (of the defaults
    where none is supplied), and the constructor of the class throws the
    same error as soon as its phrases are stored. *)
Theorem constructTokenRegex_reserved_delimiter :
  (forall p s : option string,
      (constructTokenRegex (Some {| prefix := p; suffix := s |}) =
       Throw Spec.InvalidConfiguration
       <-> p = Some "||||" \/ s = Some "||||")
      /\ (p <> Some "||||" -> s <> Some "||||" ->
          constructTokenRegex (Some {| prefix := p; suffix := s |}) =
          Ok {| before := default "%{" p; after := default "}" s |}))
  /\ constructTokenRegex None = Ok defaultTokenRegex
  /\ (forall (options : Options.t) (p s : option string) (stored : object),
         Options.interpolation options = Some {| prefix := p; suffix := s |} ->
         p = Some "||||" \/ s = Some "||||" ->
         extend ∅ (default [] (Options.phrases options)) None = Ok stored ->
         new options = Throw Spec.InvalidConfiguration).
Proof.
  assert (Hthrow : forall p s : option string,
             p = Some "||||" \/ s = Some "||||" ->
             constructTokenRegex (Some {| prefix := p; suffix := s |}) =
             Throw Spec.InvalidConfiguration).
  { intros p s [-> | ->]; unfold constructTokenRegex;
      change (default _ (Some ?o)) with o; cbn [prefix suffix].
    - reflexivity.
    - change (default "}" (Some "||||")) with delimiter.
      now rewrite String.eqb_refl, orb_true_r. }
  split; [|split].
  - intros p s. split; [split|].
    + intros H.
      destruct (decide (p = Some "||||")) as [|Hp]; [now left|].
      destruct (decide (s = Some "||||")) as [|Hs]; [now right|].
      rewrite (constructTokenRegex_unreserved p s Hp Hs) in H. discriminate.
    + apply Hthrow.
    + apply constructTokenRegex_unreserved.
  - reflexivity.
  - intros options p s stored Hio Hreserved Hstored. unfold new.
    rewrite Hstored, Hio. cbn [bind]. now rewrite (Hthrow p s Hreserved).
Qed.

(** *** Locale resolution *)

(** C5: the family of a locale is the one of its exact match in the
    flattened map, else the one of the text before its first hyphen, else
    the one of [en]; under the default rules (and under any rules that do
    not list [fr-FR]) the locale [fr-FR] is transformed as [fr] is. *)
Theorem pluralTypeName_resolution_order :
  (forall (pluralRules : PluralRules) (locale : string),
      let langToPluralType := langToTypeMap (pluralTypeToLanguages pluralRules) in
      let exact := get langToPluralType locale in
      let language := get langToPluralType (beforeHyphen locale) in
      pluralTypeName pluralRules locale =
        (if truthy exact then exact
         else if truthy language then language
         else get langToPluralType "en")
      /\ ((exists rest, locale = beforeHyphen locale +:+ "-" +:+ rest)
          \/ locale = beforeHyphen locale)
      /\ includes "-" (beforeHyphen locale) = false)
  /\ (forall (phrase : value) (substitutions : substitutions)
             (tokenRegex : option RegExp),
         transformPhrase phrase substitutions (Some "fr-FR") tokenRegex None =
         transformPhrase phrase substitutions (Some "fr") tokenRegex None)
  /\ (forall (pluralRules : PluralRules) (phrase : value)
             (substitutions : substitutions) (tokenRegex : option RegExp),
         truthy (get (langToTypeMap (pluralTypeToLanguages pluralRules)) "fr-FR")
         = false ->
         transformPhrase phrase substitutions (Some "fr-FR") tokenRegex
           (Some pluralRules) =
         transformPhrase phrase substitutions (Some "fr") tokenRegex
           (Some pluralRules)).
Proof.
  split; [|split].
  - intros pluralRules locale langToPluralType exact language. split; [|split].
    + unfold pluralTypeName, or. fold langToPluralType. fold exact. fold language.
      destruct (truthy exact) eqn:Hexact; [now rewrite Hexact | reflexivity].
    + clear. induction locale as [|c locale IH]; cbn [beforeHyphen].
      * now right.
      * destruct (Ascii.eqb_spec c "-") as [->|Hc].
        -- left. now exists locale.
        -- destruct IH as [[rest Hrest]|Hsame].
           ++ left. exists rest. now rewrite append_cons, <- Hrest.
           ++ right. now rewrite <- Hsame.
    + clear. induction locale as [|c locale IH]; cbn [beforeHyphen].
      * reflexivity.
      * destruct (Ascii.eqb_spec c "-") as [->|Hc]; [reflexivity|].
        cbn [includes String.prefix]. rewrite IH.
        destruct (ascii_dec "-" c); [congruence|]. reflexivity.
  - intros phrase substitutions tokenRegex.
    apply transformPhrase_locale. intros count.
    now rewrite !(pluralTypeIndex_group _ _ "french" frenchPluralGroups).
  - intros pluralRules phrase substitutions tokenRegex Hmiss.
    apply transformPhrase_locale. intros count.
    change (default _ (Some ?x)) with x. unfold pluralTypeIndex, pluralTypeName, or.
    change (beforeHyphen "fr-FR") with "fr". change (beforeHyphen "fr") with "fr".
    rewrite Hmiss.
    destruct (truthy (get (langToTypeMap (pluralTypeToLanguages pluralRules)) "fr"))
      eqn:Hfr; now rewrite ?Hfr.
Qed.

Lemma pluralTypeName_resolution_order_witness :
  pluralTypeName defaultPluralRules "fr-FR" = VString "french"
  /\ beforeHyphen "fr-FR" = "fr"
  /\ transformPhrase (VString Examples.english) (Count 0) (Some "fr-FR") None None =
     transformPhrase (VString Examples.english) (Count 0) (Some "fr") None None.
Proof.
  split; [|split].
  - exact (proj1 (proj1 pluralTypeName_resolution_order defaultPluralRules "fr-FR")).
  - reflexivity.
  - apply (proj1 (proj2 pluralTypeName_resolution_order)).
Defined.

(** *** The Arabic categories *)



(** *** The Russian family *)

(** C7, as amended: under the default rules each of [ru] and [hr], and each
    of the region-tagged [ru-RU], [hr-HR], [bs-Latn-BA], [bs-Cyrl-BA],
    [srl-RS] and [sr-RS], resolves to the Russian function for every count;
    the bare [bs] and [sr] are not in the table and resolve, through [en],
    to the German function. *)
Theorem russian_family_locales :
  Forall (fun locale =>
            forall count,
              pluralTypeIndex defaultPluralRules locale count =
              Ok (russianPluralGroups count))
         ["ru"; "ru-RU"; "hr"; "hr-HR"; "bs-Latn-BA"; "bs-Cyrl-BA"; "srl-RS"; "sr-RS"]
  /\ Forall (fun locale =>
               forall count,
                 pluralTypeIndex defaultPluralRules locale count =
                 Ok (germanPluralGroups count))
            ["bs"; "sr"].
Proof.
  split;
    repeat match goal with
           | |- Forall _ (_ :: _) => constructor; [intros count|]
           | |- Forall _ [] => constructor
           end.
  - now apply (pluralTypeIndex_group _ _ "russian").
  - now apply (pluralTypeIndex_group _ _ "russian").
  - now apply (pluralTypeIndex_group _ _ "croatian").
  - now apply (pluralTypeIndex_group _ _ "croatian").
  - now apply (pluralTypeIndex_group _ _ "bosnian_serbian").
  - now apply (pluralTypeIndex_group _ _ "bosnian_serbian").
  - now apply (pluralTypeIndex_group _ _ "bosnian_serbian").
  - now apply (pluralTypeIndex_group _ _ "bosnian_serbian").
  - now apply (pluralTypeIndex_group _ _ "german").
  - now apply (pluralTypeIndex_group _ _ "german").
Qed.

(** C7, as stated, fails for [bs] and [sr]: the count 5 falls in the German
    category 1 under each, where the Russian function gives 2, and the
    second of three forms is selected where [ru] selects the third. *)
Lemma bare_bs_sr_counterexample :
  pluralTypeName defaultPluralRules "bs" = VString "german"
  /\ pluralTypeName defaultPluralRules "sr" = VString "german"
  /\ pluralTypeIndex defaultPluralRules "bs" 5 = Ok 1
  /\ pluralTypeIndex defaultPluralRules "sr" 5 = Ok 1
  /\ russianPluralGroups 5 = 2
  /\ transformPhrase (VString Examples.threeForms) (Count 5) (Some "bs") None None = Ok "b"
  /\ transformPhrase (VString Examples.threeForms) (Count 5) (Some "sr") None None = Ok "b"
  /\ transformPhrase (VString Examples.threeForms) (Count 5) (Some "ru") None None = Ok "c".
Proof. repeat split. Qed.

(** *** A phrase of a single form *)

(** C8, as amended: for every phrase that does not contain the separator and
    every substitutions value with a numeric count whose family function
    resolves, the split has the phrase as its only form, that form is
    selected whatever the computed category, and the pluralization step only
    trims it: the result is the trimmed phrase with interpolation applied. *)
Theorem transformPhrase_single_form
    (phrase : string) (substitutions : substitutions) (locale : string)
    (tokenRegex : RegExp) (pluralRules : PluralRules) (count index : Z) :
  includes delimiter phrase = false ->
  get (optionsOf substitutions) "smart_count" = VNumber count ->
  pluralTypeIndex pluralRules locale count = Ok index ->
  split delimiter phrase = [phrase]
  /\ (forall category, pluralForm (split delimiter phrase) category = VString phrase)
  /\ transformPhrase (VString phrase) substitutions (Some locale)
       (Some tokenRegex) (Some pluralRules) =
     Ok (replace tokenRegex (replacer (optionsOf substitutions)) (trim phrase)).
Proof.
  intros Habsent Hcount Hindex.
  pose proof (split_absent _ _ Habsent) as Hsplit.
  split; [assumption|]. split.
  - intros category. rewrite Hsplit. apply pluralForm_single.
  - apply (transformPhrase_plural _ _ _ _ _ count index); auto.
    rewrite Hsplit. apply pluralForm_single.
Qed.

Lemma transformPhrase_single_form_witness :
  includes delimiter "Hello, %{name}" = false
  /\ transformPhrase (VString "Hello, %{name}")
       (Named {[ "smart_count" := VNumber 3; "name" := VString "Spike" ]})
       (Some "en") (Some defaultTokenRegex) (Some defaultPluralRules) =
     Ok "Hello, Spike".
Proof.
  split; [reflexivity|].
  exact (proj2 (proj2 (transformPhrase_single_form "Hello, %{name}"
                         (Named {[ "smart_count" := VNumber 3;
                                   "name" := VString "Spike" ]})
                         "en" defaultTokenRegex defaultPluralRules 3 1
                         eq_refl eq_refl eq_refl))).
Defined.

(** C8, as stated, fails: a phrase without the separator that starts and
    ends with a space is not left unchanged by the pluralization step; the
    result is not the phrase with only interpolation applied. *)
Lemma transformPhrase_trims_single_form_counterexample :
  includes delimiter " a " = false
  /\ get (optionsOf (Count 1)) "smart_count" = VNumber 1
  /\ transformPhrase (VString " a ") (Count 1) (Some "en") None None = Ok "a"
  /\ replace defaultTokenRegex (replacer (optionsOf (Count 1))) " a " = " a "
  /\ Ok "a" <>
     Ok (replace defaultTokenRegex (replacer (optionsOf (Count 1))) " a ").
Proof. vm_compute. repeat split; try reflexivity. discriminate. Qed.

(** *** The two existence predicates *)

(** C9: for an instance whose phrases map a key to the empty string, [has]
    answers false for the key while [t] returns the empty string for it,
    without a warning: the lookup of [t] finds a string where the truth
    value of [has] finds nothing. *)
Theorem has_and_t_disagree_on_empty_phrase (this : Polyglot) (key : string) :
  phrases this !! key = Some (VString "") ->
  has this key = false
  /\ t this key Absent = (Ok (VString ""), [])
  /\ typeof (get (phrases this) key) = "string".
Proof.
  intros Hkey. unfold has, t, get. rewrite Hkey. repeat split.
  unfold transformPhrase. change (default _ (Some ?x)) with x.
  cbn [optionsOf truthy String.eqb negb bind].
  replace (get ∅ "smart_count") with VUndefined by reflexivity.
  cbn [bind]. now rewrite replace_empty.
Qed.

Lemma has_and_t_disagree_on_empty_phrase_witness :
  new Examples.options = Ok Examples.polyglot
  /\ has Examples.polyglot "empty_string" = false
  /\ t Examples.polyglot "empty_string" Absent = (Ok (VString ""), []).
Proof.
  split; [reflexivity|].
  pose proof (has_and_t_disagree_on_empty_phrase Examples.polyglot
                "empty_string" eq_refl) as (Hhas & Ht & _).
  split; assumption.
Defined.

(** *** The default phrase *)

(** C10: for a key that is not in the phrases and an options object whose
    field [_] is defined and not a string, [t] ignores the field: the
    handler is called if there is one, and otherwise the warning is given
    and the key returned. *)
Theorem t_ignores_default_that_is_not_a_string
    (this : Polyglot) (key : string) (options : object) (override : value) :
  phrases this !! key = None ->
  options !! "_" = Some override ->
  typeof override <> "string" ->
  t this key (Named options) =
  match onMissingKey this with
  | Some handler =>
      (handler key (Named options) (currentLocale this) (tokenRegex this)
         (pluralRules this), [])
  | None =>
      (Ok (VString key),
       ["Missing translation for key: " +:+ quote +:+ key +:+ quote])
  end.
Proof.
  intros Hkey Hoverride Htype. unfold t, defaultPhrase, get.
  rewrite Hkey, Hoverride.
  destruct (existsb (String.eqb key) objectPrototype);
    destruct override; cbn [typeof] in Htype; congruence.
Qed.

Lemma t_ignores_default_that_is_not_a_string_witness :
  t Examples.polyglot "bogus_key" (Named {[ "_" := VNumber 3 ]}) =
  (Ok (VString "bogus_key"),
   ["Missing translation for key: " +:+ quote +:+ "bogus_key" +:+ quote]).
Proof.
  apply (t_ignores_default_that_is_not_a_string Examples.polyglot "bogus_key"
           {[ "_" := VNumber 3 ]} (VNumber 3)).
  - reflexivity.
  - reflexivity.
  - discriminate.
Defined.

(** ** Further properties of the program *)

(** *** The category functions *)

Ltac decide_comparisons :=
  repeat match goal with
         | |- context [Z.ltb ?a ?b] => destruct (Z.ltb_spec a b)
         | |- context [Z.leb ?a ?b] => destruct (Z.leb_spec a b)
         | |- context [Z.eqb ?a ?b] => destruct (Z.eqb_spec a b)
         | |- context [Z.gtb ?a ?b] => rewrite (Z.gtb_ltb a b)
         | |- context [Z.geb ?a ?b] => rewrite (Z.geb_leb a b)
         end;
  cbn [andb orb negb].

(** X1: every built-in category function returns an index of a form: below
    2 for the German, French and Icelandic rules, below 3 for the Czech,
    Lithuanian, Polish and Russian ones, below 4 for the Slovenian one and 0
    for the Chinese one, for every count; below 6 for the Arabic one on the
    counts from 0 on, a negative count being returned as it is. *)
Theorem plural_groups_bounds (n : Z) :
  0 <= germanPluralGroups n <= 1
  /\ 0 <= frenchPluralGroups n <= 1
  /\ 0 <= icelandicPluralGroups n <= 1
  /\ 0 <= czechPluralGroups n <= 2
  /\ 0 <= lithuanianPluralGroups n <= 2
  /\ 0 <= polistPluralGroups n <= 2
  /\ 0 <= russianPluralGroups n <= 2
  /\ 0 <= slovenianPluralGroups n <= 3
  /\ chinesePluralGroups n = 0
  /\ (0 <= n -> 0 <= arabicPluralGroups n <= 5)
  /\ (n < 0 -> arabicPluralGroups n = n).
Proof.
  unfold germanPluralGroups, frenchPluralGroups, icelandicPluralGroups,
    czechPluralGroups, lithuanianPluralGroups, polistPluralGroups,
    russianPluralGroups, slovenianPluralGroups, chinesePluralGroups,
    arabicPluralGroups.
  repeat apply conj; try (intros; decide_comparisons; lia).
  all: destruct (Z.rem n 100) as [|p|p]; try lia.
  all: destruct p as [[p|p|]|[p|p|]|]; try lia; destruct p; lia.
Qed.

Lemma plural_groups_bounds_witness :
  0 <= arabicPluralGroups 102 <= 5 /\ arabicPluralGroups (-4) = -4.
Proof.
  pose proof (plural_groups_bounds 102) as H102.
  pose proof (plural_groups_bounds (-4)) as Hneg.
  split.
  - apply H102. lia.
  - apply Hneg. lia.
Defined.

Lemma rem_add_100 (n : Z) : 0 <= n -> Z.rem (n + 100) 100 = Z.rem n 100.
Proof.
  intros Hn. rewrite !Z.rem_mod_nonneg by lia.
  replace (n + 100) with (n + 1 * 100) by lia. apply Z_mod_plus_full.
Qed.

Lemma rem_add_100_10 (n : Z) : 0 <= n -> Z.rem (n + 100) 10 = Z.rem n 10.
Proof.
  intros Hn. rewrite !Z.rem_mod_nonneg by lia.
  replace (n + 100) with (n + 10 * 10) by lia. apply Z_mod_plus_full.
Qed.

(** X2: from 0 on, the Russian, Lithuanian, Icelandic and Slovenian
    categories of a count depend on its last two digits only: adding 100
    does not change them.  The Polish category does not have this property,
    1 and 101 being told apart. *)
Theorem plural_groups_last_two_digits (n : Z) :
  0 <= n ->
  russianPluralGroups (n + 100) = russianPluralGroups n
  /\ lithuanianPluralGroups (n + 100) = lithuanianPluralGroups n
  /\ icelandicPluralGroups (n + 100) = icelandicPluralGroups n
  /\ slovenianPluralGroups (n + 100) = slovenianPluralGroups n
  /\ polistPluralGroups (1 + 100) <> polistPluralGroups 1.
Proof.
  intros Hn.
  unfold russianPluralGroups, lithuanianPluralGroups, icelandicPluralGroups,
    slovenianPluralGroups.
  rewrite (rem_add_100 n Hn), (rem_add_100_10 n Hn).
  repeat split. discriminate.
Qed.

Lemma plural_groups_last_two_digits_witness :
  russianPluralGroups (21 + 100) = russianPluralGroups 21.
Proof.
  apply (plural_groups_last_two_digits 21). lia.
Defined.

(** X3: the French and the German rule give the same category exactly on
    the counts from 1 on: they differ on 0 (and below), which the French
    rule puts with 1 and the German rule with the plural. *)
Theorem french_german_agree (n : Z) :
  frenchPluralGroups n = germanPluralGroups n <-> 1 <= n.
Proof.
  unfold frenchPluralGroups, germanPluralGroups.
  decide_comparisons; split; intros; try lia; try discriminate.
Qed.

(** *** The flattened map of locales *)

Module TableFacts.
Import Js Index Props.

Lemma set_lookup (o : object) (k : string) (v : value) (j : string) :
  set o k v !! j =
  if String.eqb j k && negb (String.eqb k "__proto__") then Some v else o !! j.
Proof.
  unfold set. destruct (String.eqb_spec k "__proto__") as [->|Hk].
  - now rewrite andb_false_r.
  - rewrite andb_true_r. destruct (String.eqb_spec j k) as [->|Hj].
    + apply lookup_insert_eq.
    + apply lookup_insert_ne. congruence.
Qed.

Lemma entered_spec (lang : string) (langs : list string) :
  entered lang langs = true <-> In lang langs /\ lang <> "" /\ lang <> "__proto__".
Proof.
  unfold entered. rewrite !andb_true_iff, !negb_true_iff, !String.eqb_neq.
  rewrite existsb_exists. split.
  - intros [[[x [Hin Heq]] H1] H2]. apply String.eqb_eq in Heq. now subst.
  - intros (Hin & H1 & H2). repeat split; auto.
    exists lang. split; [assumption | apply String.eqb_refl].
Qed.

Lemma lookup_assign_group (type : string) (langs : list string) (acc : object)
    (lang : string) :
  fold_left (fun acc lang => set acc lang (VString type))
    (List.filter (fun lang => truthy (VString lang)) langs) acc !! lang =
  if entered lang langs then Some (VString type) else acc !! lang.
Proof.
  revert acc. induction langs as [|l langs IH]; intros acc; [reflexivity|].
  cbn [List.filter]. change (truthy (VString l)) with (negb (String.eqb l "")).
  unfold entered. cbn [existsb].
  destruct (String.eqb_spec l "") as [El|Hl]; cbn [negb].
  - rewrite IH. unfold entered. subst l.
    destruct (String.eqb lang ""); cbn [orb negb andb];
      now rewrite ?andb_false_r.
  - cbn [fold_left]. rewrite IH, set_lookup. unfold entered.
    destruct (String.eqb_spec lang l) as [El|Hne]; cbn [orb andb]; [|reflexivity].
    subst l. rewrite (proj2 (String.eqb_neq _ _) Hl). cbn [negb andb].
    rewrite andb_true_r.
    destruct (existsb (String.eqb lang) langs); cbn [andb]; [|reflexivity].
    now destruct (String.eqb lang "__proto__").
Qed.

Lemma lookup_accumulate (acc : object) (type : string) (langs : list string)
    (lang : string) :
  accumulateToTypeMap acc (type, langs) !! lang =
  if entered lang langs then Some (VString type) else acc !! lang.
Proof.
  unfold accumulateToTypeMap.
  destruct langs as [|l langs]; [reflexivity|].
  replace (0 <? Z.of_nat (length (l :: langs))) with true
    by (symmetry; apply Z.ltb_lt; simpl length; lia).
  apply lookup_assign_group.
Qed.

Lemma langToTypeMap_snoc (mapping : list (string * list string))
    (type : string) (langs : list string) (lang : string) :
  langToTypeMap (mapping ++ [(type, langs)]) !! lang =
  if entered lang langs then Some (VString type)
  else langToTypeMap mapping !! lang.
Proof.
  unfold langToTypeMap. rewrite fold_left_app. cbn [fold_left].
  apply lookup_accumulate.
Qed.

Lemma langToTypeMap_lookup_inv (mapping : list (string * list string))
    (lang : string) (v : value) :
  langToTypeMap mapping !! lang = Some v ->
  lang <> "" /\ lang <> "__proto__"
  /\ exists type langs, In (type, langs) mapping /\ In lang langs /\ v = VString type.
Proof.
  induction mapping as [|[type langs] mapping IH] using rev_ind.
  - unfold langToTypeMap. cbn [fold_left]. now rewrite lookup_empty.
  - rewrite langToTypeMap_snoc. destruct (entered lang langs) eqn:He.
    + intros [= <-]. apply entered_spec in He as (Hin & H1 & H2).
      repeat split; auto. exists type, langs. rewrite in_app_iff.
      repeat split; auto. right. now left.
    + intros H. destruct (IH H) as (H1 & H2 & type' & langs' & Hin & Hl & ->).
      repeat split; auto. exists type', langs'. rewrite in_app_iff. auto.
Qed.

(** Every group that the default table gives a language to has its
    function. *)
Lemma default_group_defined (type : string) (langs : list string) :
  In (type, langs) (pluralTypeToLanguages defaultPluralRules) ->
  exists groups, pluralTypes defaultPluralRules !! type = Some groups.
Proof.
  cbn [pluralTypeToLanguages defaultPluralRules In].
  intros H. repeat (destruct H as [[= <- <-]|H]; [eexists; reflexivity|]).
  contradiction.
Qed.

Lemma get_default_table (lang : string) :
  existsb (String.eqb lang) objectPrototype = false ->
  get (langToTypeMap (pluralTypeToLanguages defaultPluralRules)) lang = VUndefined
  \/ exists type groups,
       get (langToTypeMap (pluralTypeToLanguages defaultPluralRules)) lang = VString type
       /\ type <> ""
       /\ pluralTypes defaultPluralRules !! type = Some groups.
Proof.
  intros Hproto. unfold get. rewrite Hproto.
  destruct (langToTypeMap _ !! lang) as [v|] eqn:Hv; [right | now left].
  apply langToTypeMap_lookup_inv in Hv as (_ & _ & type & langs & Hin & _ & ->).
  destruct (default_group_defined _ _ Hin) as [groups Hgroups].
  exists type, groups. repeat split; auto.
  intros ->. discriminate Hgroups.
Qed.

Lemma beforeHyphen_idempotent (locale : string) :
  beforeHyphen (beforeHyphen locale) = beforeHyphen locale.
Proof.
  induction locale as [|c locale IH]; cbn [beforeHyphen]; [reflexivity|].
  destruct (Ascii.eqb c "-") eqn:Hc; [reflexivity|].
  cbn [beforeHyphen]. now rewrite Hc, IH.
Qed.

Lemma pluralTypeName_language (pluralRules : PluralRules) (locale : string) :
  truthy (get (langToTypeMap (pluralTypeToLanguages pluralRules)) locale) = false ->
  pluralTypeName pluralRules locale =
  pluralTypeName pluralRules (beforeHyphen locale).
Proof.
  intros Hmiss. unfold pluralTypeName, or.
  rewrite beforeHyphen_idempotent, Hmiss.
  destruct (truthy (get _ (beforeHyphen locale))) eqn:Hl; now rewrite ?Hl.
Qed.

End TableFacts.

Import Props TableFacts.

(** X4: in the flattened map a later group of the table overwrites an
    earlier one: after a group is added at the end, a language it lists
    (other than the empty text and [__proto__]) maps to that group, and
    every other language maps to what it mapped to before. *)
Theorem langToTypeMap_last_group_wins
    (mapping : list (string * list string)) (type : string)
    (langs : list string) (lang : string) :
  (In lang langs -> lang <> "" -> lang <> "__proto__" ->
   langToTypeMap (mapping ++ [(type, langs)]) !! lang = Some (VString type))
  /\ (~ In lang langs ->
      langToTypeMap (mapping ++ [(type, langs)]) !! lang =
      langToTypeMap mapping !! lang).
Proof.
  rewrite langToTypeMap_snoc. split.
  - intros Hin H1 H2.
    now rewrite (proj2 (entered_spec lang langs) (conj Hin (conj H1 H2))).
  - intros Hnot. destruct (entered lang langs) eqn:He; [|reflexivity].
    apply entered_spec in He as [Hin _]. contradiction.
Qed.

Lemma langToTypeMap_last_group_wins_witness :
  langToTypeMap [("german", ["en"; "pt"]); ("french", ["fr"; "pt"])] !! "pt"
  = Some (VString "french")
  /\ langToTypeMap [("german", ["en"; "pt"]); ("french", ["fr"; "pt"])] !! "en"
     = Some (VString "german").
Proof.
  split.
  - apply (proj1 (langToTypeMap_last_group_wins
                    [("german", ["en"; "pt"])] "french" ["fr"; "pt"] "pt")).
    + right. now left.
    + discriminate.
    + discriminate.
  - transitivity (langToTypeMap [("german", ["en"; "pt"])] !! "en");
      [|reflexivity].
    apply (proj2 (langToTypeMap_last_group_wins
                    [("german", ["en"; "pt"])] "french" ["fr"; "pt"] "en")).
    intros [H|[H|[]]]; discriminate H.
Defined.

(** X5: the flattened map holds nothing but the table: a language found in
    it is not the empty text (the empty entries of a list are filtered out),
    and its value is the name of a group of the table that lists it. *)
Theorem langToTypeMap_holds_the_table
    (mapping : list (string * list string)) (lang : string) (v : value) :
  langToTypeMap mapping !! lang = Some v ->
  lang <> ""
  /\ exists type langs,
       In (type, langs) mapping /\ In lang langs /\ v = VString type.
Proof.
  intros H. apply langToTypeMap_lookup_inv in H as (H1 & _ & H2). auto.
Qed.

Lemma langToTypeMap_holds_the_table_witness :
  "fr" <> ""
  /\ exists type langs,
       In (type, langs) (pluralTypeToLanguages defaultPluralRules)
       /\ In "fr" langs /\ VString "french" = VString type.
Proof.
  apply (langToTypeMap_holds_the_table
           (pluralTypeToLanguages defaultPluralRules) "fr" (VString "french")).
  reflexivity.
Defined.

(** X6: a locale that the flattened map does not hold is transformed as the
    text before its first hyphen is, under every rule set: the region
    subtag is ignored whenever the full locale is not listed. *)
Theorem transformPhrase_ignores_region
    (phrase : value) (substitutions : substitutions) (locale : string)
    (tokenRegex : option RegExp) (pluralRules : option PluralRules) :
  truthy (get (langToTypeMap
                 (pluralTypeToLanguages (default defaultPluralRules pluralRules)))
              locale) = false ->
  transformPhrase phrase substitutions (Some locale) tokenRegex pluralRules =
  transformPhrase phrase substitutions (Some (beforeHyphen locale)) tokenRegex
    pluralRules.
Proof.
  intros Hmiss. apply transformPhrase_locale. intros count.
  unfold pluralTypeIndex. now rewrite (pluralTypeName_language _ _ Hmiss).
Qed.

Lemma transformPhrase_ignores_region_witness :
  transformPhrase (VString Examples.english) (Count 1) (Some "de-AT") None None =
  transformPhrase (VString Examples.english) (Count 1) (Some "de") None None.
Proof.
  apply (transformPhrase_ignores_region (VString Examples.english) (Count 1)
           "de-AT" None None).
  reflexivity.
Defined.

(** X7: under the default rules the plural index of a locale is always
    found, whatever the locale, unless the locale or the text before its
    first hyphen is the name of a member of [Object.prototype]; it is not
    found for the locale [constructor]. *)
Theorem default_rules_always_resolve (locale : string) (count : Z) :
  existsb (String.eqb locale) objectPrototype = false ->
  existsb (String.eqb (beforeHyphen locale)) objectPrototype = false ->
  (exists index, pluralTypeIndex defaultPluralRules locale count = Ok index)
  /\ exists e, pluralTypeIndex defaultPluralRules "constructor" count = Throw e.
Proof.
  intros Hlocale Hlanguage. split; [|eexists; reflexivity].
  assert (Hfound : forall type groups,
             type <> "" ->
             pluralTypes defaultPluralRules !! type = Some groups ->
             truthy (VString type) = true)
    by (intros type groups Hne _; cbn [truthy];
        now rewrite (proj2 (String.eqb_neq _ _) Hne)).
  unfold pluralTypeIndex, pluralTypeName, or.
  destruct (get_default_table locale Hlocale)
    as [-> | (type & groups & -> & Hne & Hgroups)].
  - change (truthy VUndefined) with false. cbv iota.
    destruct (get_default_table (beforeHyphen locale) Hlanguage)
      as [-> | (type & groups & -> & Hne & Hgroups)].
    + change (truthy VUndefined) with false. cbv iota. eexists. reflexivity.
    + rewrite (Hfound type groups Hne Hgroups). cbn [toString].
      rewrite Hgroups. eauto.
  - rewrite !(Hfound type groups Hne Hgroups). cbn [toString].
    rewrite Hgroups. eauto.
Qed.

Lemma default_rules_always_resolve_witness :
  exists index, pluralTypeIndex defaultPluralRules "xx-YY" 7 = Ok index.
Proof.
  apply (default_rules_always_resolve "xx-YY" 7); reflexivity.
Defined.

(** X8: under the default rules a locale that the table lists neither as it
    is nor by the text before its first hyphen is pluralized by the German
    rule, the one of [en]. *)
Theorem default_rules_fall_back_to_english (locale : string) (count : Z) :
  get (langToTypeMap (pluralTypeToLanguages defaultPluralRules)) locale
  = VUndefined ->
  get (langToTypeMap (pluralTypeToLanguages defaultPluralRules))
      (beforeHyphen locale) = VUndefined ->
  pluralTypeName defaultPluralRules locale = VString "german"
  /\ pluralTypeIndex defaultPluralRules locale count = Ok (germanPluralGroups count).
Proof.
  intros Hlocale Hlanguage.
  assert (Hname : pluralTypeName defaultPluralRules locale = VString "german")
    by (unfold pluralTypeName, or; now rewrite Hlocale, Hlanguage).
  split; [assumption|].
  now apply (pluralTypeIndex_group _ _ "german").
Qed.

Lemma default_rules_fall_back_to_english_witness :
  pluralTypeName defaultPluralRules "xx-YY" = VString "german"
  /\ pluralTypeIndex defaultPluralRules "oz" 1 = Ok 0.
Proof.
  split.
  - apply (default_rules_fall_back_to_english "xx-YY" 0); reflexivity.
  - apply (default_rules_fall_back_to_english "oz" 1); reflexivity.
Defined.

(** X9: when neither the locale, nor the text before its first hyphen, nor
    [en] is in the flattened map of a rule set (and no group is named
    [undefined]), the plural index cannot be computed: [transformPhrase]
    throws a TypeError for a numeric count and a phrase that is not empty,
    and still returns the empty phrase, for which it does not pluralize. *)
Theorem transformPhrase_unresolved_family
    (pluralRules : PluralRules) (locale : string) (count : Z)
    (tokenRegex : option RegExp) :
  truthy (get (langToTypeMap (pluralTypeToLanguages pluralRules)) locale) = false ->
  truthy (get (langToTypeMap (pluralTypeToLanguages pluralRules))
              (beforeHyphen locale)) = false ->
  langToTypeMap (pluralTypeToLanguages pluralRules) !! "en" = None ->
  pluralTypes pluralRules !! "undefined" = None ->
  (forall phrase : string,
      phrase <> "" ->
      transformPhrase (VString phrase) (Count count) (Some locale) tokenRegex
        (Some pluralRules) =
      Throw (TypeError "pluralRules.pluralTypes[pluralTypeName(...)] is not a function"))
  /\ transformPhrase (VString "") (Count count) (Some locale) tokenRegex
       (Some pluralRules) = Ok "".
Proof.
  intros Hlocale Hlanguage Hen Hundefined.
  assert (Hindex : pluralTypeIndex pluralRules locale count =
                   Throw (TypeError "pluralRules.pluralTypes[pluralTypeName(...)] is not a function")).
  { unfold pluralTypeIndex, pluralTypeName, or. rewrite Hlocale, Hlanguage.
    replace (get (langToTypeMap (pluralTypeToLanguages pluralRules)) "en")
      with VUndefined by (unfold get; now rewrite Hen).
    cbn [toString]. now rewrite Hundefined. }
  split.
  - intros phrase Hphrase. unfold transformPhrase.
    change (default _ (Some ?x)) with x.
    replace (get (optionsOf (Count count)) "smart_count") with (VNumber count)
      by reflexivity.
    cbn [truthy]. rewrite (proj2 (String.eqb_neq _ _) Hphrase). cbn [negb].
    now rewrite Hindex.
  - unfold transformPhrase.
    replace (get (optionsOf (Count count)) "smart_count") with (VNumber count)
      by reflexivity.
    cbn [truthy String.eqb negb bind]. now rewrite replace_empty.
Qed.

Lemma transformPhrase_unresolved_family_witness :
  transformPhrase (VString Examples.english) (Count 2) (Some "x3") None
    (Some MoreExamples.customPluralRules) =
  Throw (TypeError "pluralRules.pluralTypes[pluralTypeName(...)] is not a function")
  /\ transformPhrase (VString "") (Count 2) (Some "x3") None
       (Some MoreExamples.customPluralRules) = Ok "".
Proof.
  pose proof (transformPhrase_unresolved_family MoreExamples.customPluralRules
                "x3" 2 None eq_refl eq_refl eq_refl eq_refl) as [Hthrow Hempty].
  split; [apply Hthrow; discriminate | exact Hempty].
Defined.

Lemma transformPhrase_interpolates_only
    (phrase : string) (substitutions : substitutions) (locale : option string)
    (tokenRegex : option RegExp) (pluralRules : option PluralRules) :
  substitutions <> Absent ->
  typeof (get (optionsOf substitutions) "smart_count") <> "number" \/ phrase = "" ->
  transformPhrase (VString phrase) substitutions locale tokenRegex pluralRules =
  Ok (replace (default defaultTokenRegex tokenRegex)
        (replacer (optionsOf substitutions)) phrase).
Proof.
  intros Hgiven Hcase. unfold transformPhrase.
  destruct substitutions as [|n|o]; [congruence| |];
    (destruct (get _ "smart_count") eqn:Hcount; try reflexivity;
     destruct Hcase as [Htype | ->]; [now cbn [typeof] in Htype | reflexivity]).
Qed.

(** X10: the plural form is selected, and the family resolved, only for a
    numeric count and a phrase that is not empty: with substitutions whose
    count is not a number, or with the empty phrase, the result is the whole
    phrase, separators included, with interpolation applied, under every
    rule set and locale. *)
Theorem transformPhrase_without_pluralization
    (phrase : string) (substitutions : substitutions) (locale : option string)
    (tokenRegex : option RegExp) (pluralRules : option PluralRules) :
  substitutions <> Absent ->
  typeof (get (optionsOf substitutions) "smart_count") <> "number" \/ phrase = "" ->
  transformPhrase (VString phrase) substitutions locale tokenRegex pluralRules =
  Ok (replace (default defaultTokenRegex tokenRegex)
        (replacer (optionsOf substitutions)) phrase).
Proof.
  intros Hgiven Hcase. now apply transformPhrase_interpolates_only.
Qed.

Lemma transformPhrase_without_pluralization_witness :
  transformPhrase (VString "%{n} a |||| %{n} b") (Named {[ "n" := VNumber 2 ]})
    (Some "constructor") None None = Ok "2 a |||| 2 b".
Proof.
  exact (transformPhrase_without_pluralization "%{n} a |||| %{n} b"
           (Named {[ "n" := VNumber 2 ]}) (Some "constructor") None None
           ltac:(discriminate) ltac:(left; discriminate)).
Defined.

(** *** Forms and placeholders *)

Module TextFacts.
Import Js JsFacts Index Props.

Lemma includes_no_prefix (search s : string) :
  includes search s = false -> String.prefix search s = false.
Proof. destruct s; cbn [includes]; now rewrite orb_false_iff. Qed.

Lemma includes_bar_delimiter (s : string) :
  includes "|" s = false -> includes delimiter s = false.
Proof.
  intros H. destruct (includes delimiter s) eqn:Hd; [|reflexivity].
  apply includes_spec in Hd as (a & b & ->).
  assert (includes "|" (a +:+ delimiter +:+ b) = true) as Hbar
    by (apply includes_spec; now exists a, ("|||" +:+ b)).
  congruence.
Qed.

Lemma split_from_form (form piece rest : string) :
  includes "|" form = false ->
  split_from delimiter 0 piece (form +:+ delimiter +:+ rest) =
  (piece +:+ form) :: split_from delimiter 0 "" rest.
Proof.
  revert piece. induction form as [|c form IH]; intros piece Hbar.
  - rewrite append_empty_l, append_empty_r.
    destruct rest; reflexivity.
  - apply includes_tail in Hbar as [Hc Hform].
    rewrite append_cons. cbn [split_from].
    replace (String.prefix delimiter (String c (form +:+ delimiter +:+ rest)))
      with false.
    + rewrite (IH _ Hform). now rewrite append_snoc.
    + cbn [String.prefix delimiter] in *.
      destruct (ascii_dec "|" c); [now destruct form | reflexivity].
Qed.

(** The forms joined by the delimiter are split into the forms again, when
    no form holds a bar. *)
Lemma split_join (forms : list string) :
  forms <> [] ->
  Forall (fun form => includes "|" form = false) forms ->
  split delimiter (join delimiter forms) = forms.
Proof.
  intros Hne Hforms. induction Hforms as [|form rest Hform Hrest IH];
    [congruence|].
  destruct rest as [|next rest].
  - cbn [join]. apply split_absent. now apply includes_bar_delimiter.
  - rewrite join_cons by discriminate. unfold split.
    rewrite (split_from_form _ _ _ Hform), append_empty_l.
    f_equal. apply IH. discriminate.
Qed.

(** *** Interpolation *)

Lemma prefix_append_short (p x y : string) :
  String.prefix p (x +:+ y) = true ->
  (String.length p <= String.length x)%nat ->
  String.prefix p x = true.
Proof.
  revert x. induction p as [|c p IH]; intros x Hp Hlen.
  - now destruct x.
  - destruct x as [|d x]; [simpl in Hlen; lia|].
    rewrite append_cons in Hp. cbn [String.prefix] in *.
    destruct (ascii_dec c d); [|discriminate].
    apply IH; [assumption | simpl in Hlen; lia].
Qed.

Lemma allButLast_snoc (p : string) :
  p <> "" -> exists c, p = allButLast p +:+ String c "".
Proof.
  induction p as [|c p IH]; [congruence|]. intros _.
  destruct p as [|d p].
  - now exists c.
  - destruct IH as [e He]; [discriminate|]. exists e.
    change (allButLast (String c (String d p)))
      with (String c (allButLast (String d p))).
    now rewrite append_cons, <- He.
Qed.

Lemma length_append (a b : string) :
  String.length (a +:+ b) = (String.length a + String.length b)%nat.
Proof.
  induction a as [|c a IH]; [reflexivity|].
  rewrite append_cons. cbn [String.length]. now rewrite IH.
Qed.

Lemma includes_not_empty (p s : string) : includes p s = false -> p <> "".
Proof. intros H ->. now destruct s. Qed.

(** A text that, followed by all but the last code unit of [p], does not
    hold [p] cannot be where [p] starts, whatever follows. *)
Lemma prefix_blocked (p : string) (c : ascii) (x rest : string) :
  includes p (String c x +:+ allButLast p) = false ->
  String.prefix p (String c x +:+ p +:+ rest) = false.
Proof.
  intros Hfree. destruct (String.prefix p _) eqn:Hp; [|reflexivity].
  destruct (allButLast_snoc p (includes_not_empty _ _ Hfree)) as [e He].
  rewrite He in Hp at 2. rewrite append_assoc, <- append_assoc in Hp.
  apply prefix_append_short in Hp.
  - apply includes_no_prefix in Hfree. congruence.
  - rewrite He at 1. rewrite !length_append. cbn [String.length]. lia.
Qed.

Lemma lazyCapture_here (after s : string) :
  String.prefix after s = true -> lazyCapture after s = Some "".
Proof. intros H. destruct s; cbn [lazyCapture]; now rewrite H. Qed.

Lemma lazyCapture_exact (after name rest : string) :
  singleLine name = true ->
  includes after (name +:+ allButLast after) = false ->
  lazyCapture after (name +:+ after +:+ rest) = Some name.
Proof.
  induction name as [|c name IH]; intros Hline Hfree.
  - rewrite append_empty_l. apply lazyCapture_here.
    apply prefix_append. now exists rest.
  - cbn [singleLine] in Hline. apply andb_true_iff in Hline as [Hc Hline].
    apply negb_true_iff in Hc.
    pose proof (prefix_blocked _ _ _ rest Hfree) as Hblocked.
    rewrite append_cons in Hfree. apply includes_tail in Hfree as [_ Hfree].
    rewrite append_cons in *. cbn [lazyCapture].
    rewrite Hblocked, Hc, (IH Hline Hfree). reflexivity.
Qed.

Lemma replace_from_skip (re : RegExp) (f : string -> string -> value)
    (x rest : string) :
  replace_from re f (String.length x) (x +:+ rest) = replace_from re f 0 rest.
Proof.
  induction x as [|c x IH]; [reflexivity|].
  rewrite append_cons. cbn [String.length replace_from]. exact IH.
Qed.

Lemma replace_from_unmatched (re : RegExp) (f : string -> string -> value)
    (c : ascii) (s : string) :
  String.prefix (before re) (String c s) = false ->
  replace_from re f 0 (String c s) = String c (replace_from re f 0 s).
Proof. intros H. cbn [replace_from]. unfold matchAt. now rewrite H. Qed.

(** The text in front of the first occurrence of the prefix is kept. *)
Lemma replace_from_text (re : RegExp) (f : string -> string -> value)
    (text s : string) :
  includes (before re) (text +:+ allButLast (before re)) = false ->
  replace_from re f 0 (text +:+ before re +:+ s) =
  text +:+ replace_from re f 0 (before re +:+ s).
Proof.
  induction text as [|c text IH]; intros Hfree; [reflexivity|].
  pose proof (prefix_blocked _ _ _ s Hfree) as Hblocked.
  rewrite append_cons in Hfree. apply includes_tail in Hfree as [_ Hfree].
  rewrite !append_cons in *.
  rewrite (replace_from_unmatched _ _ _ _ Hblocked). now rewrite (IH Hfree).
Qed.

(** A placeholder at the start is replaced, and the search goes on behind
    it. *)
Lemma replace_from_placeholder (re : RegExp) (f : string -> string -> value)
    (name rest : string) :
  before re <> "" ->
  singleLine name = true ->
  includes (after re) (name +:+ allButLast (after re)) = false ->
  replace_from re f 0 (before re +:+ name +:+ after re +:+ rest) =
  toString (f (before re +:+ name +:+ after re) name)
  +:+ replace_from re f 0 rest.
Proof.
  intros Hbefore Hline Hfree.
  destruct (before re) as [|b0 b] eqn:Hb; [congruence|].
  rewrite append_cons. cbn [replace_from]. unfold matchAt. rewrite Hb.
  assert (String.prefix (String b0 b) (String b0 (b +:+ name +:+ after re +:+ rest))
          = true) as ->
    by (apply prefix_append; exists (name +:+ after re +:+ rest);
        now rewrite append_cons).
  rewrite <- append_cons, drop_append, (lazyCapture_exact _ _ _ Hline Hfree).
  cbn [fmap option_fmap option_map]. rewrite !append_cons. cbn [String.length].
  f_equal.
  replace (b +:+ name +:+ after re +:+ rest)
    with ((b +:+ name +:+ after re) +:+ rest)
    by now rewrite !append_assoc.
  apply replace_from_skip.
Qed.

End TextFacts.

Import TextFacts.

(** X11: a phrase made of forms without a bar, joined by the delimiter, is
    split into exactly these forms; for a numeric count whose plural index
    is found, the result is the form at that index (the first form when
    there is none there or it is empty), trimmed and interpolated. *)
Theorem transformPhrase_joined_forms
    (forms : list string) (substitutions : substitutions) (locale : string)
    (tokenRegex : RegExp) (pluralRules : PluralRules) (count index : Z) :
  forms <> [] ->
  Forall (fun form => includes "|" form = false) forms ->
  get (optionsOf substitutions) "smart_count" = VNumber count ->
  pluralTypeIndex pluralRules locale count = Ok index ->
  split delimiter (join delimiter forms) = forms
  /\ transformPhrase (VString (join delimiter forms)) substitutions
       (Some locale) (Some tokenRegex) (Some pluralRules) =
     Ok (replace tokenRegex (replacer (optionsOf substitutions))
           (trim match Js.index forms index with
                 | VString form => if String.eqb form "" then nth 0 forms "" else form
                 | _ => nth 0 forms ""
                 end)).
Proof.
  intros Hne Hforms Hcount Hindex.
  pose proof (split_join forms Hne Hforms) as Hsplit.
  split; [assumption|].
  apply (transformPhrase_plural _ _ _ _ _ count index); auto.
  rewrite Hsplit. destruct forms as [|first rest]; [congruence|].
  now rewrite pluralForm_cons.
Qed.

Lemma transformPhrase_joined_forms_witness :
  split delimiter (join delimiter ["one car"; "%{smart_count} cars"]) =
  ["one car"; "%{smart_count} cars"]
  /\ transformPhrase (VString (join delimiter ["one car"; "%{smart_count} cars"]))
       (Count 4) (Some "en") (Some defaultTokenRegex) (Some defaultPluralRules) =
     Ok "4 cars".
Proof.
  exact (transformPhrase_joined_forms ["one car"; "%{smart_count} cars"]
           (Count 4) "en" defaultTokenRegex defaultPluralRules 4 1
           ltac:(discriminate) ltac:(repeat constructor) eq_refl eq_refl).
Defined.

(** X12: under [en] and the default rules, a phrase of a singular and a
    plural form without bars, the plural one not empty, gives the singular
    form for the count 1 and the plural form for every other count, trimmed
    and interpolated. *)
Theorem transformPhrase_english
    (singular plural : string) (substitutions : substitutions)
    (tokenRegex : RegExp) (count : Z) :
  includes "|" singular = false ->
  includes "|" plural = false ->
  plural <> "" ->
  get (optionsOf substitutions) "smart_count" = VNumber count ->
  transformPhrase (VString (singular +:+ delimiter +:+ plural)) substitutions
    (Some "en") (Some tokenRegex) None =
  Ok (replace tokenRegex (replacer (optionsOf substitutions))
        (trim (if count =? 1 then singular else plural))).
Proof.
  intros Hsingular Hplural Hne Hcount.
  assert (Hsplit : split delimiter (singular +:+ delimiter +:+ plural)
                   = [singular; plural]).
  { apply (split_join [singular; plural]); [discriminate|].
    repeat constructor; assumption. }
  apply (transformPhrase_plural _ _ _ _ _ count (germanPluralGroups count));
    [assumption | now apply (pluralTypeIndex_group _ _ "german") |].
  rewrite Hsplit, pluralForm_cons. unfold germanPluralGroups.
  destruct (count =? 1).
  - change (Js.index [singular; plural] 0) with (VString singular).
    cbv beta iota. now destruct (String.eqb singular "").
  - change (Js.index [singular; plural] 1) with (VString plural).
    cbv beta iota. now rewrite (proj2 (String.eqb_neq _ _) Hne).
Qed.

Lemma transformPhrase_english_witness :
  transformPhrase (VString Examples.english) (Count 0) (Some "en")
    (Some defaultTokenRegex) None = Ok "0 Names"
  /\ transformPhrase (VString Examples.english) (Count 1) (Some "en")
       (Some defaultTokenRegex) None = Ok "1 Name".
Proof.
  split.
  - exact (transformPhrase_english "%{smart_count} Name " " %{smart_count} Names"
             (Count 0) defaultTokenRegex 0 eq_refl eq_refl
             ltac:(discriminate) eq_refl).
  - exact (transformPhrase_english "%{smart_count} Name " " %{smart_count} Names"
             (Count 1) defaultTokenRegex 1 eq_refl eq_refl
             ltac:(discriminate) eq_refl).
Defined.

Lemma replace_from_without_prefix (re : RegExp) (f : string -> string -> value)
    (s : string) :
  includes (before re) s = false -> replace_from re f 0 s = s.
Proof.
  induction s as [|c s IH]; intros Hfree.
  - cbn [replace_from]. unfold matchAt.
    now rewrite (includes_no_prefix _ _ Hfree).
  - apply includes_tail in Hfree as [Hp Hs].
    rewrite (replace_from_unmatched _ _ _ _ Hp). now rewrite (IH Hs).
Qed.

(** X13: a phrase in which the prefix of the placeholders does not occur is
    returned as it is, whatever the named values are. *)
Theorem transformPhrase_without_placeholder
    (phrase : string) (options : object) (locale : option string)
    (tokenRegex : RegExp) (pluralRules : option PluralRules) :
  includes (before tokenRegex) phrase = false ->
  typeof (get options "smart_count") <> "number" ->
  transformPhrase (VString phrase) (Named options) locale (Some tokenRegex)
    pluralRules = Ok phrase.
Proof.
  intros Hfree Hcount.
  rewrite transformPhrase_interpolates_only by (auto; discriminate).
  change (default _ (Some ?x)) with x. unfold replace.
  now rewrite replace_from_without_prefix.
Qed.

Lemma transformPhrase_without_placeholder_witness :
  transformPhrase (VString "100% {sure}") (Named {[ "sure" := VString "x" ]})
    None (Some defaultTokenRegex) None = Ok "100% {sure}".
Proof.
  apply (transformPhrase_without_placeholder "100% {sure}"
           {[ "sure" := VString "x" ]} None defaultTokenRegex None).
  - reflexivity.
  - intros H. vm_compute in H. discriminate H.
Defined.

(** X14: interpolation is a single pass from left to right.  The text in
    front of the first placeholder is kept; the placeholder is replaced by
    the text of the value its name has in the options, or kept when the name
    has no value; the text put in is not searched again, and the search goes
    on behind the placeholder. *)
Theorem interpolation_single_pass
    (tokenRegex : RegExp) (options : object) (text name rest : string) :
  includes (before tokenRegex) (text +:+ allButLast (before tokenRegex)) = false ->
  singleLine name = true ->
  includes (after tokenRegex) (name +:+ allButLast (after tokenRegex)) = false ->
  replace tokenRegex (replacer options)
    (text +:+ before tokenRegex +:+ name +:+ after tokenRegex +:+ rest) =
  text
  +:+ match get options name with
      | VUndefined => before tokenRegex +:+ name +:+ after tokenRegex
      | v => toString v
      end
  +:+ replace tokenRegex (replacer options) rest.
Proof.
  intros Htext Hline Hname. unfold replace.
  rewrite (replace_from_text _ _ _ _ Htext).
  rewrite replace_from_placeholder;
    [| apply (includes_not_empty _ _ Htext) | assumption | assumption].
  unfold replacer.
  destruct (get options name) as [| | | | | |k]; try reflexivity.
  cbn [typeof]. now destruct (String.eqb k "__proto__").
Qed.

Lemma interpolation_single_pass_witness :
  replace defaultTokenRegex
    (replacer {[ "a" := VString "%{b}"; "b" := VString "$&" ]}) "<%{a}>" = "<%{b}>"
  /\ replace defaultTokenRegex (replacer ∅) "%{name}!" = "%{name}!".
Proof.
  split.
  - exact (interpolation_single_pass defaultTokenRegex
             {[ "a" := VString "%{b}"; "b" := VString "$&" ]} "<" "a" ">"
             eq_refl eq_refl eq_refl).
  - exact (interpolation_single_pass defaultTokenRegex ∅ "" "name" "!"
             eq_refl eq_refl eq_refl).
Defined.

(** *** The phrases of an instance *)

Module MethodsFacts.
Import Js Index Props.

Lemma phraseTree_nested_ind (P : phraseTree -> Prop) :
  (forall v, P (Phrase v)) ->
  (forall entries, Forall (fun entry => P entry.2) entries -> P (Phrases entries)) ->
  forall phrase, P phrase.
Proof.
  intros Hleaf Hnode. fix IH 1. intros [v|entries].
  - apply Hleaf.
  - apply Hnode. induction entries as [|[k p] rest IHrest]; constructor.
    + apply IH.
    + apply IHrest.
Qed.

Lemma stores_app (phrases : object) (a b : list (string * value)) :
  stores phrases (a ++ b) =
  match stores phrases a with
  | (stored, None) => stores stored b
  | thrown => thrown
  end.
Proof.
  unfold stores, thrownBy. revert phrases.
  induction a as [|entry a IH]; intros phrases; [reflexivity|].
  cbn [app untilNull existsb]. destruct (isNull entry) eqn:Hnull.
  - reflexivity.
  - cbn [orb List.filter]. destruct (isPhrase entry).
    + cbn [assignAll fold_left]. apply IH.
    + apply IH.
Qed.

Lemma deletes_app (phrases : object) (a b : list (string * value)) :
  deletes phrases (a ++ b) =
  match deletes phrases a with
  | (stored, None) => deletes stored b
  | thrown => thrown
  end.
Proof.
  unfold deletes, thrownBy. revert phrases.
  induction a as [|entry a IH]; intros phrases; [reflexivity|].
  cbn [app untilNull existsb]. destruct (isNull entry) eqn:Hnull.
  - reflexivity.
  - cbn [orb List.filter]. destruct (isPhrase entry).
    + cbn [map deleteAll fold_left]. apply IH.
    + apply IH.
Qed.

Lemma stores_leaf (phrases : object) (key : string) (v : value) :
  Methods.extendEntry phrases key (Phrase v) = stores phrases [(key, v)].
Proof.
  destruct v; try reflexivity.
  unfold stores, thrownBy. cbn [Methods.extendEntry untilNull existsb].
  unfold isNull. cbn [snd List.filter orb].
  unfold isPhrase. cbn [snd typeof].
  destruct (String.eqb k "__proto__"); reflexivity.
Qed.

Lemma deletes_leaf (phrases : object) (key : string) (v : value) :
  Methods.unsetEntry phrases key (Phrase v) = deletes phrases [(key, v)].
Proof.
  destruct v; try reflexivity.
  unfold deletes, thrownBy. cbn [Methods.unsetEntry untilNull existsb].
  unfold isNull. cbn [snd List.filter orb].
  unfold isPhrase. cbn [snd typeof].
  destruct (String.eqb k "__proto__"); reflexivity.
Qed.

Lemma extendEntry_nested (phrases : object) (key : string)
    (entries : list (string * phraseTree)) :
  Methods.extendEntry phrases key (Phrases entries) =
  Methods.extendPhrases phrases entries (Some key).
Proof.
  revert phrases. induction entries as [|[k p] rest IH]; intros phrases;
    [reflexivity|].
  cbn [Methods.extendEntry Methods.extendPhrases].
  destruct (Methods.extendEntry phrases (prefixedKey (Some key) k) p)
    as [stored [e|]]; [reflexivity | exact (IH stored)].
Qed.

Lemma unsetEntry_nested (phrases : object) (key : string)
    (entries : list (string * phraseTree)) :
  Methods.unsetEntry phrases key (Phrases entries) =
  Methods.unsetPhrases phrases entries (Some key).
Proof.
  revert phrases. induction entries as [|[k p] rest IH]; intros phrases;
    [reflexivity|].
  cbn [Methods.unsetEntry Methods.unsetPhrases].
  destruct (Methods.unsetEntry phrases (prefixedKey (Some key) k) p)
    as [stored [e|]]; [reflexivity | exact (IH stored)].
Qed.

Lemma leaves_nested (key : string) (entries : list (string * phraseTree)) :
  leaves key (Phrases entries) = flatten (Some key) entries.
Proof.
  induction entries as [|[k p] rest IH]; [reflexivity|].
  cbn [flatten leaves]. f_equal. exact IH.
Qed.

Lemma extendPhrases_stores_with
    (entries : list (string * phraseTree)) (prefix : option string) :
  Forall (fun entry =>
            forall key phrases,
              Methods.extendEntry phrases key entry.2
              = stores phrases (leaves key entry.2)) entries ->
  forall phrases,
    Methods.extendPhrases phrases entries prefix
    = stores phrases (flatten prefix entries).
Proof.
  induction 1 as [|[k p] rest Hentry _ IH]; intros phrases; [reflexivity|].
  cbn [snd] in Hentry.
  cbn [Methods.extendPhrases flatten]. rewrite stores_app, (Hentry _ phrases).
  destruct (stores phrases (leaves (prefixedKey prefix k) p)) as [stored [e|]];
    [reflexivity | apply IH].
Qed.

Lemma extendEntry_stores (phrase : phraseTree) :
  forall key phrases,
    Methods.extendEntry phrases key phrase = stores phrases (leaves key phrase).
Proof.
  induction phrase as [v|entries IH] using phraseTree_nested_ind;
    intros key phrases.
  - apply stores_leaf.
  - rewrite extendEntry_nested, leaves_nested.
    now apply extendPhrases_stores_with.
Qed.

Lemma extendPhrases_stores (phrases : object)
    (morePhrases : list (string * phraseTree)) (prefix : option string) :
  Methods.extendPhrases phrases morePhrases prefix
  = stores phrases (flatten prefix morePhrases).
Proof.
  apply extendPhrases_stores_with. apply Forall_forall.
  intros entry _ key stored. apply extendEntry_stores.
Qed.

Lemma unsetPhrases_deletes_with
    (entries : list (string * phraseTree)) (prefix : option string) :
  Forall (fun entry =>
            forall key phrases,
              Methods.unsetEntry phrases key entry.2
              = deletes phrases (leaves key entry.2)) entries ->
  forall phrases,
    Methods.unsetPhrases phrases entries prefix
    = deletes phrases (flatten prefix entries).
Proof.
  induction 1 as [|[k p] rest Hentry _ IH]; intros phrases; [reflexivity|].
  cbn [snd] in Hentry.
  cbn [Methods.unsetPhrases flatten]. rewrite deletes_app, (Hentry _ phrases).
  destruct (deletes phrases (leaves (prefixedKey prefix k) p)) as [stored [e|]];
    [reflexivity | apply IH].
Qed.

Lemma unsetEntry_deletes (phrase : phraseTree) :
  forall key phrases,
    Methods.unsetEntry phrases key phrase = deletes phrases (leaves key phrase).
Proof.
  induction phrase as [v|entries IH] using phraseTree_nested_ind;
    intros key phrases.
  - apply deletes_leaf.
  - rewrite unsetEntry_nested, leaves_nested.
    now apply unsetPhrases_deletes_with.
Qed.

Lemma unsetPhrases_deletes (phrases : object)
    (morePhrases : list (string * phraseTree)) (prefix : option string) :
  Methods.unsetPhrases phrases morePhrases prefix
  = deletes phrases (flatten prefix morePhrases).
Proof.
  apply unsetPhrases_deletes_with. apply Forall_forall.
  intros entry _ key stored. apply unsetEntry_deletes.
Qed.

End MethodsFacts.

Module PhrasesFacts.
Import Js Index Props TableFacts MethodsFacts.

Lemma extend_outcome_leaf (phrases : object) (key : string) (v : value) :
  Index.extendEntry phrases key (Phrase v) =
  outcome (Methods.extendEntry phrases key (Phrase v)).
Proof.
  cbn [Index.extendEntry Methods.extendEntry].
  destruct (String.eqb (typeof v) "object"); [|reflexivity].
  now destruct v.
Qed.

Lemma extend_outcome_with (entries : list (string * phraseTree))
    (prefix : option string) :
  Forall (fun entry =>
            forall key phrases,
              Index.extendEntry phrases key entry.2
              = outcome (Methods.extendEntry phrases key entry.2)) entries ->
  forall phrases,
    Index.extend phrases entries prefix
    = outcome (Methods.extendPhrases phrases entries prefix).
Proof.
  induction 1 as [|[k p] rest Hentry _ IH]; intros phrases; [reflexivity|].
  cbn [snd] in Hentry. cbn [Index.extend Methods.extendPhrases].
  rewrite Hentry.
  destruct (Methods.extendEntry phrases (prefixedKey prefix k) p)
    as [stored [e|]]; [reflexivity | apply IH].
Qed.

Lemma extendEntry_outcome_nested (phrases : object) (key : string)
    (entries : list (string * phraseTree)) :
  Index.extendEntry phrases key (Phrases entries) =
  Index.extend phrases entries (Some key).
Proof.
  revert phrases. induction entries as [|[k p] rest IH]; intros phrases;
    [reflexivity|].
  cbn [Index.extendEntry Index.extend].
  destruct (Index.extendEntry phrases (prefixedKey (Some key) k) p)
    as [stored|e]; [exact (IH stored) | reflexivity].
Qed.

Lemma extendEntry_outcome (phrase : phraseTree) :
  forall key phrases,
    Index.extendEntry phrases key phrase
    = outcome (Methods.extendEntry phrases key phrase).
Proof.
  induction phrase as [v|entries IH] using phraseTree_nested_ind;
    intros key phrases.
  - apply extend_outcome_leaf.
  - rewrite extendEntry_outcome_nested, extendEntry_nested.
    now apply extend_outcome_with.
Qed.

(** The phrases the constructor stores are those [extend] stores. *)
Lemma extend_outcome (phrases : object)
    (morePhrases : list (string * phraseTree)) (prefix : option string) :
  Index.extend phrases morePhrases prefix
  = outcome (stores phrases (flatten prefix morePhrases)).
Proof.
  rewrite <- extendPhrases_stores. apply extend_outcome_with.
  apply Forall_forall. intros entry _ key stored. apply extendEntry_outcome.
Qed.

Lemma lookup_assignAll_other (phrases : object)
    (entries : list (string * value)) (key : string) :
  ~ In key (map fst entries) ->
  assignAll phrases entries !! key = phrases !! key.
Proof.
  revert phrases. induction entries as [|[k v] entries IH]; intros phrases Hnot;
    [reflexivity|].
  cbn [assignAll fold_left fst snd map In] in *.
  unfold assignAll in IH. rewrite IH by tauto. rewrite set_lookup.
  destruct (String.eqb_spec key k) as [->|_]; [tauto | reflexivity].
Qed.

Lemma lookup_assignAll_once (phrases : object)
    (entries : list (string * value)) (key : string) (v : value) :
  NoDup (map fst entries) ->
  In (key, v) entries ->
  key <> "__proto__" ->
  assignAll phrases entries !! key = Some v.
Proof.
  revert phrases. induction entries as [|[k w] entries IH];
    intros phrases Hnodup Hin Hkey; [contradiction|].
  cbn [map fst] in Hnodup. apply NoDup_cons in Hnodup as [Hfresh Hnodup].
  cbn [assignAll fold_left fst snd].
  destruct Hin as [[= -> ->]|Hin].
  - fold (assignAll (set phrases key v) entries).
    rewrite lookup_assignAll_other by (now rewrite <- list_elem_of_In).
    rewrite set_lookup, String.eqb_refl.
    now rewrite (proj2 (String.eqb_neq _ _) Hkey).
  - now apply IH.
Qed.

Lemma lookup_deleteAll (phrases : object) (keys : list string) (key : string) :
  deleteAll phrases keys !! key =
  if existsb (String.eqb key) keys then None else phrases !! key.
Proof.
  revert phrases. induction keys as [|k keys IH]; intros phrases;
    [reflexivity|].
  cbn [deleteAll fold_left existsb]. unfold deleteAll in IH. rewrite IH.
  destruct (existsb (String.eqb key) keys); [now rewrite orb_true_r|].
  rewrite orb_false_r. destruct (String.eqb_spec key k) as [->|Hne].
  - apply lookup_delete_eq.
  - apply lookup_delete_ne. congruence.
Qed.

Lemma existsb_eqb_In (key : string) (keys : list string) :
  existsb (String.eqb key) keys = true <-> In key keys.
Proof.
  rewrite existsb_exists. split.
  - intros [k [Hin Heq]]. apply String.eqb_eq in Heq. now subst.
  - intros Hin. exists key. split; [assumption | apply String.eqb_refl].
Qed.

Lemma touched_keys (prefix : option string)
    (morePhrases : list (string * phraseTree)) (key : string) :
  In key (map fst (touched prefix morePhrases)) ->
  In key (map fst (flatten prefix morePhrases)).
Proof.
  unfold touched. generalize (flatten prefix morePhrases) as entries.
  induction entries as [|entry entries IH]; [auto|].
  cbn [untilNull]. destruct (isNull entry); [contradiction|].
  cbn [List.filter]. destruct (isPhrase entry); cbn [map In]; tauto.
Qed.

Lemma untilNull_all (entries : list (string * value)) :
  existsb isNull entries = false -> untilNull entries = entries.
Proof.
  induction entries as [|entry entries IH]; [reflexivity|].
  cbn [existsb untilNull]. destruct (isNull entry); [discriminate|].
  cbn [orb]. intros H. now rewrite IH.
Qed.

Lemma extend_flat (this : Polyglot) (morePhrases : list (string * phraseTree))
    (prefix : option string) :
  Methods.extend this morePhrases prefix =
  (Methods.withPhrases this (assignAll (phrases this) (touched prefix morePhrases)),
   thrownBy (flatten prefix morePhrases)).
Proof. unfold Methods.extend. now rewrite extendPhrases_stores. Qed.

Lemma unset_flat (this : Polyglot) (morePhrases : list (string * phraseTree))
    (prefix : option string) :
  Methods.unset this (Methods.Hash morePhrases) prefix =
  (Methods.withPhrases this
     (deleteAll (phrases this) (map fst (touched prefix morePhrases))),
   thrownBy (flatten prefix morePhrases)).
Proof. unfold Methods.unset. now rewrite unsetPhrases_deletes. Qed.

Lemma withPhrases_same (this : Polyglot) :
  Methods.withPhrases this (phrases this) = this.
Proof. now destruct this. Qed.

End PhrasesFacts.

Import MethodsFacts PhrasesFacts.

(** X15: [extend] stores the values of the phrases object under their
    dotted keys, in the order of the object: every value that is not an
    object is assigned, up to the first null; a null makes it throw a
    TypeError, what was met before it staying stored. *)
Theorem extend_stores_flattened
    (this : Polyglot) (morePhrases : list (string * phraseTree))
    (prefix : option string) :
  Methods.extend this morePhrases prefix =
  (Methods.withPhrases this (assignAll (phrases this) (touched prefix morePhrases)),
   thrownBy (flatten prefix morePhrases)).
Proof. apply extend_flat. Qed.

(** X16: a nested object under a key is stored as [extend] stores the object
    itself with that key as the prefix; a key under a prefix that is given
    and not empty is the prefix, a dot and the key, and the key alone
    otherwise. *)
Theorem extend_nested_as_prefix
    (this : Polyglot) (key : string) (entries : list (string * phraseTree))
    (prefix : option string) :
  Methods.extend this [(key, Phrases entries)] prefix =
  Methods.extend this entries (Some (prefixedKey prefix key))
  /\ (forall p, p <> "" -> prefixedKey (Some p) key = p +:+ "." +:+ key)
  /\ prefixedKey (Some "") key = key
  /\ prefixedKey None key = key.
Proof.
  split; [|split; [|split]]; try reflexivity.
  - unfold Methods.extend. cbn [Methods.extendPhrases].
    rewrite extendEntry_nested.
    now destruct (Methods.extendPhrases _ _ _) as [stored [e|]].
  - intros p Hp. unfold prefixedKey. cbn [truthy].
    now rewrite (proj2 (String.eqb_neq _ _) Hp).
Qed.

Lemma extend_nested_as_prefix_witness :
  phrases (Methods.extend Examples.polyglot MoreExamples.nested None).1
  !! "nav.cta.join" = Some (VString "Join now!")
  /\ prefixedKey (Some "nav.cta") "join" = "nav.cta.join".
Proof.
  split; [reflexivity|].
  apply (proj1 (proj2 (extend_nested_as_prefix Examples.polyglot "join" [] None))).
  discriminate.
Defined.

(** X17: [extend] does not forget old keys: a key that is not one of the
    dotted keys of the phrases object keeps its phrase, and [has] and [t]
    answer for it as before, whether [extend] throws or not. *)
Theorem extend_keeps_other_keys
    (this : Polyglot) (morePhrases : list (string * phraseTree))
    (prefix : option string) (key : string) :
  ~ In key (map fst (flatten prefix morePhrases)) ->
  phrases (Methods.extend this morePhrases prefix).1 !! key = phrases this !! key
  /\ has (Methods.extend this morePhrases prefix).1 key = has this key
  /\ forall options,
       t (Methods.extend this morePhrases prefix).1 key options
       = t this key options.
Proof.
  intros Hother. rewrite extend_flat. cbn [fst].
  assert (Hsame : assignAll (phrases this) (touched prefix morePhrases) !! key
                  = phrases this !! key).
  { apply lookup_assignAll_other. intros Hin. apply Hother.
    now apply touched_keys. }
  split; [exact Hsame|]. split.
  - unfold has, get. cbn [Methods.withPhrases phrases]. now rewrite Hsame.
  - intros options. unfold t, get.
    cbn [Methods.withPhrases phrases currentLocale onMissingKey tokenRegex pluralRules].
    now rewrite Hsame.
Qed.

Lemma extend_keeps_other_keys_witness :
  t (Methods.extend Examples.polyglot MoreExamples.nested None).1 "hello" Absent
  = t Examples.polyglot "hello" Absent.
Proof.
  apply (extend_keeps_other_keys Examples.polyglot MoreExamples.nested None "hello").
  intros H. vm_compute in H. intuition discriminate.
Defined.

(** X18: after an [extend] that meets no null and no dotted key twice,
    every string of the phrases object is the phrase of its dotted key:
    [t] transforms that string, whatever was stored under the key before. *)
Theorem extend_then_t
    (this : Polyglot) (morePhrases : list (string * phraseTree))
    (prefix : option string) (key phrase : string) (options : substitutions) :
  NoDup (map fst (flatten prefix morePhrases)) ->
  existsb isNull (flatten prefix morePhrases) = false ->
  In (key, VString phrase) (flatten prefix morePhrases) ->
  key <> "__proto__" ->
  (Methods.extend this morePhrases prefix).2 = None
  /\ phrases (Methods.extend this morePhrases prefix).1 !! key
     = Some (VString phrase)
  /\ t (Methods.extend this morePhrases prefix).1 key options
     = (bind (transformPhrase (VString phrase)
                (match options with Absent => Named ∅ | _ => options end)
                (Some (currentLocale this)) (Some (tokenRegex this))
                (Some (pluralRules this)))
             (fun s => Ok (VString s)), []).
Proof.
  intros Hnodup Hnull Hin Hkey. rewrite extend_flat. cbn [fst snd].
  unfold thrownBy, touched. rewrite Hnull, (untilNull_all _ Hnull).
  assert (Hfound : assignAll (phrases this)
                     (List.filter isPhrase (flatten prefix morePhrases)) !! key
                   = Some (VString phrase)).
  { apply lookup_assignAll_once; [| |assumption].
    - clear -Hnodup. induction (flatten prefix morePhrases) as [|[k v] l IH];
        [constructor|].
      cbn [map fst] in Hnodup. apply NoDup_cons in Hnodup as [Hfresh Hnodup].
      cbn [List.filter]. destruct (isPhrase (k, v)); [|now apply IH].
      cbn [map fst]. apply NoDup_cons. split; [|now apply IH].
      rewrite list_elem_of_In in *. intros Hk. apply Hfresh.
      rewrite in_map_iff in *. destruct Hk as [x [Hx Hxin]].
      exists x. split; [assumption|]. now apply filter_In in Hxin.
    - apply filter_In. split; [assumption | reflexivity]. }
  split; [reflexivity|]. split; [exact Hfound|].
  unfold t, get.
  cbn [Methods.withPhrases phrases currentLocale onMissingKey tokenRegex pluralRules].
  now rewrite Hfound.
Qed.

Lemma extend_then_t_witness :
  t (Methods.extend Examples.polyglot MoreExamples.nested None).1
    "nav.cta.join" Absent = (Ok (VString "Join now!"), []).
Proof.
  refine (proj2 (proj2 (extend_then_t Examples.polyglot MoreExamples.nested None
                          "nav.cta.join" "Join now!" Absent _ eq_refl _ _))).
  - apply (bool_decide_unpack _). vm_compute. reflexivity.
  - vm_compute. tauto.
  - discriminate.
Defined.

(** X19: [unset] with an object hash deletes the dotted keys of the values
    of the hash that are not objects, up to the first null, whatever these
    values are; a null makes it throw a TypeError, the keys met before it
    staying deleted.  Every other key keeps its phrase. *)
Theorem unset_deletes_flattened
    (this : Polyglot) (morePhrases : list (string * phraseTree))
    (prefix : option string) :
  Methods.unset this (Methods.Hash morePhrases) prefix =
  (Methods.withPhrases this
     (deleteAll (phrases this) (map fst (touched prefix morePhrases))),
   thrownBy (flatten prefix morePhrases))
  /\ (forall key,
         In key (map fst (touched prefix morePhrases)) ->
         phrases (Methods.unset this (Methods.Hash morePhrases) prefix).1 !! key
         = None)
  /\ (forall key,
         ~ In key (map fst (flatten prefix morePhrases)) ->
         phrases (Methods.unset this (Methods.Hash morePhrases) prefix).1 !! key
         = phrases this !! key).
Proof.
  assert (Hunset : Methods.unset this (Methods.Hash morePhrases) prefix =
                   (Methods.withPhrases this
                      (deleteAll (phrases this) (map fst (touched prefix morePhrases))),
                    thrownBy (flatten prefix morePhrases)))
    by apply unset_flat.
  split; [exact Hunset|]. rewrite Hunset. cbn [fst Methods.withPhrases phrases].
  split; intros key Hkey; rewrite lookup_deleteAll.
  - now rewrite (proj2 (existsb_eqb_In _ _) Hkey).
  - destruct (existsb (String.eqb key) _) eqn:Hin; [|reflexivity].
    apply existsb_eqb_In, touched_keys in Hin. contradiction.
Qed.

Lemma unset_deletes_flattened_witness :
  phrases (Methods.unset Examples.polyglot
             (Methods.Hash [("hello", Phrase (VString "anything"))]) None).1
  !! "hello" = None
  /\ phrases (Methods.unset Examples.polyglot
                (Methods.Hash [("hello", Phrase (VString "anything"))]) None).1
     !! "empty_string" = Some (VString "").
Proof.
  pose proof (unset_deletes_flattened Examples.polyglot
                [("hello", Phrase (VString "anything"))] None)
    as (_ & Hgone & Hkept).
  split.
  - apply Hgone. now left.
  - rewrite Hkept; [reflexivity|]. intros [H|[]]. discriminate H.
Defined.

(** X20: [unset] undoes [extend]: extending an instance by a phrases object
    without null whose dotted keys are all new to it, and unsetting the same
    object under the same prefix, gives the instance back, neither call
    throwing. *)
Theorem unset_after_extend
    (this : Polyglot) (morePhrases : list (string * phraseTree))
    (prefix : option string) :
  existsb isNull (flatten prefix morePhrases) = false ->
  (forall key, In key (map fst (flatten prefix morePhrases)) ->
               phrases this !! key = None) ->
  (Methods.extend this morePhrases prefix).2 = None
  /\ Methods.unset (Methods.extend this morePhrases prefix).1
       (Methods.Hash morePhrases) prefix = (this, None).
Proof.
  intros Hnull Hfresh.
  rewrite unset_flat, extend_flat.
  cbn [fst snd Methods.withPhrases phrases currentLocale onMissingKey
       tokenRegex pluralRules].
  unfold thrownBy. rewrite Hnull. split; [reflexivity|]. f_equal.
  destruct this as [stored l h re rules]. unfold Methods.withPhrases.
  cbn [phrases currentLocale onMissingKey tokenRegex pluralRules] in *. f_equal.
  apply map_eq. intros key. rewrite lookup_deleteAll.
  destruct (existsb (String.eqb key) _) eqn:Hin.
  - apply existsb_eqb_In, touched_keys in Hin. symmetry. now apply Hfresh.
  - apply lookup_assignAll_other. intros Hkey.
    apply existsb_eqb_In in Hkey. congruence.
Qed.

Lemma unset_after_extend_witness :
  Methods.unset (Methods.extend Examples.polyglot MoreExamples.nested None).1
    (Methods.Hash MoreExamples.nested) None = (Examples.polyglot, None).
Proof.
  apply (unset_after_extend Examples.polyglot MoreExamples.nested None).
  - reflexivity.
  - intros key H. vm_compute in H.
    destruct H as [<-|[<-|[<-|[]]]]; reflexivity.
Defined.

(** X21: after [unset] with a key the key has no phrase and every other key
    keeps its phrase; without a handler [t] then warns and returns the key,
    and [has] answers false unless the key names a member of
    [Object.prototype]. *)
Theorem unset_key_then_missing (this : Polyglot) (key : string) :
  (Methods.unset this (Methods.Key key) None).2 = None
  /\ phrases (Methods.unset this (Methods.Key key) None).1 !! key = None
  /\ (forall other, other <> key ->
        phrases (Methods.unset this (Methods.Key key) None).1 !! other
        = phrases this !! other)
  /\ (onMissingKey this = None ->
      t (Methods.unset this (Methods.Key key) None).1 key Absent =
      (Ok (VString key),
       ["Missing translation for key: " +:+ quote +:+ key +:+ quote]))
  /\ (existsb (String.eqb key) objectPrototype = false ->
      has (Methods.unset this (Methods.Key key) None).1 key = false).
Proof.
  cbn [Methods.unset fst snd].
  split; [reflexivity|]. split; [apply lookup_delete_eq|].
  split; [|split].
  - intros other Hother. cbn [Methods.withPhrases phrases].
    apply lookup_delete_ne. congruence.
  - intros Hhandler. unfold t, get.
    cbn [Methods.withPhrases phrases currentLocale onMissingKey tokenRegex
         pluralRules defaultPhrase].
    rewrite lookup_delete_eq, Hhandler.
    change (get ∅ "_") with VUndefined.
    now destruct (existsb (String.eqb key) objectPrototype).
  - intros Hproto. unfold has, get. cbn [Methods.withPhrases phrases].
    now rewrite lookup_delete_eq, Hproto.
Qed.

Lemma unset_key_then_missing_witness :
  t (Methods.unset Examples.polyglot (Methods.Key "hello") None).1 "hello" Absent
  = (Ok (VString "hello"),
     ["Missing translation for key: " +:+ quote +:+ "hello" +:+ quote])
  /\ has (Methods.unset Examples.polyglot (Methods.Key "hello") None).1 "hello"
     = false.
Proof.
  pose proof (unset_key_then_missing Examples.polyglot "hello")
    as (_ & _ & _ & Ht & Hhas).
  split; [apply Ht | apply Hhas]; reflexivity.
Defined.

(** X22: [replace] leaves no old phrase: it stores what [extend] would store
    in an instance without phrases, and a key that is not one of the dotted
    keys of the new phrases object has no phrase afterwards. *)
Theorem replace_forgets_old_phrases
    (this : Polyglot) (newPhrases : list (string * phraseTree)) :
  Methods.replace this newPhrases =
  (Methods.withPhrases this (assignAll ∅ (touched None newPhrases)),
   thrownBy (flatten None newPhrases))
  /\ forall key,
       ~ In key (map fst (flatten None newPhrases)) ->
       phrases (Methods.replace this newPhrases).1 !! key = None.
Proof.
  unfold Methods.replace. rewrite extend_flat. split; [reflexivity|].
  intros key Hkey. cbn [fst Methods.withPhrases Methods.clear phrases].
  rewrite lookup_assignAll_other; [apply lookup_empty|].
  intros Hin. apply Hkey. now apply touched_keys.
Qed.

Lemma replace_forgets_old_phrases_witness :
  phrases (Methods.replace Examples.polyglot MoreExamples.nested).1 !! "hello"
  = None.
Proof.
  apply (proj2 (replace_forgets_old_phrases Examples.polyglot MoreExamples.nested)).
  intros H. vm_compute in H. intuition discriminate.
Defined.

Lemma constructTokenRegex_cases (options : option InterpolationOptions) :
  constructTokenRegex options =
  if reserved options then Throw Spec.InvalidConfiguration
  else Ok {| before := default "%{" (options ≫= prefix);
             after := default "}" (options ≫= suffix) |}.
Proof.
  destruct options as [[p s]|]; [|reflexivity].
  unfold constructTokenRegex, reserved.
  change (default _ (Some ?o)) with o. cbn [prefix suffix mbind option_bind].
  destruct (String.eqb (default "%{" p) delimiter
            || String.eqb (default "}" s) delimiter); [reflexivity|].
  apply newRegExp_escape.
Qed.

(** X23: the constructor throws in two cases only: a null among the values
    of the phrases, and then a TypeError, or else the delimiter as the
    prefix or the suffix of the placeholders, and then the RangeError.  The
    instance it builds otherwise holds the flattened phrases, the matcher of
    the prefix and the suffix, and a locale that is not empty, [en] when none
    is given. *)
Theorem new_outcome (options : Options.t) :
  let morePhrases := default [] (Options.phrases options) in
  match new options with
  | Ok this =>
      existsb isNull (flatten None morePhrases) = false
      /\ reserved (Options.interpolation options) = false
      /\ phrases this = assignAll ∅ (touched None morePhrases)
      /\ tokenRegex this =
         {| before := default "%{" (Options.interpolation options ≫= prefix);
            after := default "}" (Options.interpolation options ≫= suffix) |}
      /\ currentLocale this <> ""
      /\ (Options.locale options = None -> currentLocale this = "en")
  | Throw e =>
      (existsb isNull (flatten None morePhrases) = true
       /\ e = Methods.nullEntries)
      \/ (existsb isNull (flatten None morePhrases) = false
          /\ reserved (Options.interpolation options) = true
          /\ e = Spec.InvalidConfiguration)
  end.
Proof.
  intros morePhrases. unfold new. fold morePhrases.
  rewrite extend_outcome, constructTokenRegex_cases.
  unfold stores, thrownBy, touched.
  destruct (existsb isNull (flatten None morePhrases)); cbn [outcome bind].
  - left. now split.
  - destruct (reserved (Options.interpolation options)); cbn [bind].
    + right. now repeat split.
    + cbn [phrases tokenRegex currentLocale]. repeat split.
      * destruct (Options.locale options) as [l|]; [|discriminate].
        cbn [truthy]. destruct (String.eqb_spec l ""); cbn [negb];
          [discriminate | assumption].
      * now intros ->.
Qed.

Lemma new_outcome_witness :
  new Examples.options = Ok Examples.polyglot
  /\ phrases Examples.polyglot =
     assignAll ∅ (touched None (default [] (Options.phrases Examples.options)))
  /\ currentLocale Examples.polyglot <> "".
Proof.
  pose proof (new_outcome Examples.options) as H.
  change (new Examples.options) with (Ok Examples.polyglot) in H.
  destruct H as (_ & _ & Hphrases & _ & Hlocale & _).
  repeat split; assumption.
Defined.

(** X24: an instance built with [allowMissing] and without a handler of its
    own transforms the key itself when the key has no phrase and the options
    name no default: the key is interpolated (and pluralized) as a phrase
    would be, and no warning is given.  A handler given to the constructor
    is the handler of the instance, with or without [allowMissing]. *)
Theorem allowMissing_transforms_the_key (options : Options.t) (this : Polyglot) :
  new options = Ok this ->
  (Options.onMissingKey options = None ->
   Options.allowMissing options = true ->
   forall (key : string) (named : object),
     phrases this !! key = None ->
     named !! "_" = None ->
     t this key (Named named) =
     (bind (transformPhrase (VString key) (Named named)
              (Some (currentLocale this)) (Some (tokenRegex this))
              (Some (pluralRules this)))
           (fun s => Ok (VString s)), []))
  /\ (forall handler,
         Options.onMissingKey options = Some handler ->
         onMissingKey this = Some handler).
Proof.
  unfold new. intros Hnew.
  destruct (extend ∅ _ None) as [stored|e]; [|discriminate Hnew].
  cbn [bind] in Hnew.
  destruct (constructTokenRegex _) as [re|e]; [|discriminate Hnew].
  cbn [bind] in Hnew. injection Hnew as <-. split.
  - intros Hnone Hallow key named Hkey Hdefault.
    unfold t, get, defaultPhrase, get.
    cbn [phrases currentLocale onMissingKey tokenRegex pluralRules] in *.
    rewrite Hkey, Hdefault, Hnone, Hallow.
    change (existsb (String.eqb "_") objectPrototype) with false.
    now destruct (existsb (String.eqb key) objectPrototype).
  - intros handler Hhandler. cbn [onMissingKey]. now rewrite Hhandler.
Qed.

Lemma allowMissing_transforms_the_key_witness :
  t MoreExamples.allowingPolyglot "Welcome %{name}"
    (Named {[ "name" := VString "Robert" ]}) = (Ok (VString "Welcome Robert"), []).
Proof.
  exact (proj1 (allowMissing_transforms_the_key MoreExamples.allowing
                  MoreExamples.allowingPolyglot eq_refl)
           eq_refl eq_refl "Welcome %{name}" {[ "name" := VString "Robert" ]}
           eq_refl eq_refl).
Defined.

(** X25: [t] warns in one case only, and then it returns the key: when the
    key has no string as its phrase, the options name no string as the
    default, and the instance has no handler.  In every other case no
    warning is given. *)
Theorem t_warns_only_when_nothing_is_found
    (this : Polyglot) (key : string) (options : substitutions) :
  (typeof (get (phrases this) key) <> "string" ->
   typeof (defaultPhrase options) <> "string" ->
   onMissingKey this = None ->
   t this key options =
   (Ok (VString key),
    ["Missing translation for key: " +:+ quote +:+ key +:+ quote]))
  /\ (typeof (get (phrases this) key) = "string"
      \/ typeof (defaultPhrase options) = "string"
      \/ onMissingKey this <> None ->
      (t this key options).2 = []).
Proof.
  assert (Hdefault : defaultPhrase
                       match options with Absent => Named ∅ | _ => options end
                     = defaultPhrase options)
    by now destruct options.
  unfold t. rewrite Hdefault. split.
  - intros Hphrase Hoverride Hhandler. rewrite Hhandler.
    destruct (get (phrases this) key); try (now cbn [typeof] in Hphrase);
      destruct (defaultPhrase options); try (now cbn [typeof] in Hoverride);
      reflexivity.
  - intros Hfound.
    destruct (get (phrases this) key) eqn:Hphrase; try reflexivity;
      (destruct (defaultPhrase options) eqn:Hoverride; try reflexivity;
       destruct (onMissingKey this); try reflexivity;
       destruct Hfound as [H|[H|H]]; try congruence; cbn [typeof] in H;
       try discriminate H;
       match type of H with
       | context [String.eqb ?k _] => destruct (String.eqb k "__proto__")
       end; discriminate H).
Qed.

Lemma t_warns_only_when_nothing_is_found_witness :
  t Examples.polyglot "bogus_key" (Count 3) =
  (Ok (VString "bogus_key"),
   ["Missing translation for key: " +:+ quote +:+ "bogus_key" +:+ quote])
  /\ (t Examples.polyglot "hello" (Count 3)).2 = [].
Proof.
  pose proof (t_warns_only_when_nothing_is_found Examples.polyglot "bogus_key"
                (Count 3)) as [Hwarn _].
  pose proof (t_warns_only_when_nothing_is_found Examples.polyglot "hello"
                (Count 3)) as [_ Hquiet].
  split.
  - apply Hwarn; [discriminate | discriminate | reflexivity].
  - apply Hquiet. left. reflexivity.
Defined.

(** X26: the locale is used for pluralization only.  [locale] returns the
    locale it is given, or the current one when it is given none or the
    empty text, and keeps the phrases; without a handler, and for options
    whose count is not a number, [t] answers after it as before, whatever
    locale was set. *)
Theorem locale_matters_for_pluralization_only
    (this : Polyglot) (newLocale : option string) (key : string)
    (options : substitutions) :
  onMissingKey this = None ->
  typeof (get (optionsOf options) "smart_count") <> "number" ->
  t (Methods.locale this newLocale).1 key options = t this key options
  /\ phrases (Methods.locale this newLocale).1 = phrases this
  /\ (Methods.locale this newLocale).2 =
     match newLocale with
     | Some l => if String.eqb l "" then currentLocale this else l
     | None => currentLocale this
     end.
Proof.
  intros Hhandler Hcount.
  assert (Hsame : forall (phrase : string) (l1 l2 : string),
             transformPhrase (VString phrase)
               match options with Absent => Named ∅ | _ => options end
               (Some l1) (Some (tokenRegex this)) (Some (pluralRules this)) =
             transformPhrase (VString phrase)
               match options with Absent => Named ∅ | _ => options end
               (Some l2) (Some (tokenRegex this)) (Some (pluralRules this))).
  { intros phrase l1 l2.
    rewrite !transformPhrase_interpolates_only;
      try reflexivity; try (now destruct options);
      left; now destruct options. }
  unfold Methods.locale.
  destruct newLocale as [l|]; [|now repeat split].
  cbn [truthy]. destruct (String.eqb l ""); cbn [negb]; [now repeat split|].
  cbn [fst snd phrases currentLocale]. split; [|now split].
  unfold t. cbn [phrases currentLocale onMissingKey tokenRegex pluralRules].
  rewrite Hhandler.
  destruct (get (phrases this) key); try (now rewrite (Hsame _ l (currentLocale this)));
    destruct (defaultPhrase _); try reflexivity;
    now rewrite (Hsame _ l (currentLocale this)).
Qed.

Lemma locale_matters_for_pluralization_only_witness :
  t (Methods.locale Examples.polyglot (Some "ru")).1 "hello" Absent
  = t Examples.polyglot "hello" Absent
  /\ (Methods.locale Examples.polyglot (Some "")).2 = "en".
Proof.
  pose proof (locale_matters_for_pluralization_only Examples.polyglot (Some "ru")
                "hello" Absent eq_refl) as Hru.
  pose proof (locale_matters_for_pluralization_only Examples.polyglot (Some "")
                "hello" Absent eq_refl) as Hempty.
  split.
  - apply Hru. discriminate.
  - apply Hempty. discriminate.
Defined.
